(** * Order pricing and user registration (chapter 14, clean-code example)

    A shallow embedding of [OrderItem], [OrderConstants] and
    [OrderCalculator], and of [u], [User], [UserRepository], [EmailService]
    and [UserService], of [src/SOLID/code-examples/chapter-14.cpp].

    Data is modelled as the program has it:
    - [double] is the kernel's binary64 type [float]; [+], [*], [/], [<] and
      [>=] are the IEEE 754 operations of the processor;
    - [int] is [Z] (the program never does arithmetic on a quantity, it only
      compares it with a constant and converts it to [double]);
    - [std::string] is [string], a sequence of 8-bit characters;
    - [std::vector<OrderItem>] is [list OrderItem];
    - a thrown [std::invalid_argument] is the second constructor of [except];
    - in the user example a call either returns or throws one of the
      exceptions of the program ([outcome]); a [std::regex] is its syntax
      tree, matched by derivatives; the abstract classes [UserRepository] and
      [EmailService] are records of functions on a state [W] of the
      implementation, and [std::cout] is the list of the lines written. *)

From Stdlib Require Import ZArith List String Ascii Bool Lia Uint63 Floats.
From Stdlib Require Import Permutation DecimalString.
Import ListNotations.

Set Warnings "-inexact-float".

(* ================================================================= *)
(** ** The C++ library functions the example calls *)

(** [::toupper] in the "C" locale: the letters [a]..[z] (97..122) are moved
    to [A]..[Z]; every other character is returned unchanged. *)
Definition toupper (c : ascii) : ascii :=
  let n := nat_of_ascii c in
  if ((97 <=? n) && (n <=? 122))%nat then ascii_of_nat (n - 32) else c.

(** [std::string::empty]. *)
Definition empty (s : string) : bool :=
  match s with
  | EmptyString => true
  | String _ _ => false
  end.

(** The implicit conversion of an [int] to [double] in [price * quantity]. *)
Definition int_to_double (n : Z) : float :=
  if (n <? 0)%Z then (- of_uint63 (of_Z (- n)))%float
  else of_uint63 (of_Z n).

(** [std::round] on the specification view of a binary64 number: the nearest
    integer, halfway cases away from zero, with the sign of the argument.
    A finite number [m * 2^e] with [0 <= e] is an integer already; for
    [e < 0] the magnitude of the result is [floor (m / 2^(-e) + 1/2)],
    computed on integers and written back in canonical form. Zeros,
    infinities and NaN are returned as they are. *)
Definition SFround (x : spec_float) : spec_float :=
  match x with
  | S754_finite s m e =>
      if (0 <=? e)%Z then x
      else
        match ((Zpos m + 2 ^ (- e - 1)) / 2 ^ (- e))%Z with
        | Zpos n =>
            let '(m', e') :=
              shl_align n 0 (fexp prec emax (Zpos (digits2_pos n))) in
            S754_finite s m' e'
        | _ => S754_zero s
        end
  | _ => x
  end.

Definition round (x : float) : float := SF2Prim (SFround (Prim2SF x)).

(** A thrown exception ends the computation; [what] is its message. *)
Inductive except (A : Type) : Type :=
  | Normal (a : A)
  | invalid_argument (what : string).
Arguments Normal {A} a.
Arguments invalid_argument {A} what.

Definition bind {A B : Type} (c : except A) (k : A -> except B) : except B :=
  match c with
  | Normal a => k a
  | invalid_argument what => invalid_argument what
  end.

Notation "c ;; k" := (bind c (fun _ => k))
  (at level 61, right associativity).

(** A range-based [for] whose body may throw. *)
Fixpoint for_each {A : Type} (body : A -> except unit) (l : list A)
  : except unit :=
  match l with
  | [] => Normal tt
  | x :: rest => body x ;; for_each body rest
  end.

(* ================================================================= *)
(** ** [struct OrderItem] *)

Record OrderItem : Type := mkOrderItem {
  productName : string;
  price : float;
  quantity : Z;
  category : string
}.

Definition getTotalPrice (item : OrderItem) : float :=
  (price item * int_to_double (quantity item))%float.

(* ================================================================= *)
(** ** [namespace OrderConstants] *)

Module OrderConstants.
Definition ELECTRONICS_TAX_RATE : float := 0.1.
Definition BOOK_BULK_DISCOUNT_RATE : float := 0.05.
Definition BOOK_BULK_QUANTITY_THRESHOLD : Z := 5.
Definition FREE_SHIPPING_THRESHOLD : float := 100.0.
Definition STANDARD_SHIPPING_COST : float := 10.0.

Definition ELECTRONICS_CATEGORY : string := "ELECTRONICS".
Definition BOOKS_CATEGORY : string := "BOOKS".
End OrderConstants.

(* ================================================================= *)
(** ** [class OrderCalculator] *)

Fixpoint toUpperCase (str : string) : string :=
  match str with
  | EmptyString => EmptyString
  | String c rest => String (toupper c) (toUpperCase rest)
  end.

(** The body of the loop of [validateOrderItems]. *)
Definition validateItem (item : OrderItem) : except unit :=
  if (quantity item <=? 0)%Z then
    invalid_argument ("Invalid quantity for item " ++ productName item)
  else if (price item <? 0)%float then
    invalid_argument ("Invalid price for item " ++ productName item)
  else if empty (productName item) then
    invalid_argument "Product name cannot be empty"
  else Normal tt.

Definition validateOrderItems (orderItems : list OrderItem) : except unit :=
  match orderItems with
  | [] => invalid_argument "Order must contain at least one item"
  | _ :: _ => for_each validateItem orderItems
  end.

Definition applyElectronicsTax (amount : float) : float :=
  (amount * (1.0 + OrderConstants.ELECTRONICS_TAX_RATE))%float.

Definition applyBookDiscount (amount : float) (quantity : Z) : float :=
  if (OrderConstants.BOOK_BULK_QUANTITY_THRESHOLD <=? quantity)%Z then
    (amount * (1.0 - OrderConstants.BOOK_BULK_DISCOUNT_RATE))%float
  else amount.

Definition calculateItemTotal (item : OrderItem) : float :=
  let baseTotal := getTotalPrice item in
  let upperCategory := toUpperCase (category item) in
  if String.eqb upperCategory OrderConstants.ELECTRONICS_CATEGORY then
    applyElectronicsTax baseTotal
  else if String.eqb upperCategory OrderConstants.BOOKS_CATEGORY then
    applyBookDiscount baseTotal (quantity item)
  else baseTotal.

Definition calculateSubtotal (orderItems : list OrderItem) : float :=
  fold_left (fun subtotal item => (subtotal + calculateItemTotal item)%float)
            orderItems 0.0%float.

Definition calculateShippingCost (subtotal : float) : float :=
  if (OrderConstants.FREE_SHIPPING_THRESHOLD <=? subtotal)%float then 0.0%float
  else OrderConstants.STANDARD_SHIPPING_COST.

Definition calculateOrderTotal (orderItems : list OrderItem) : except float :=
  validateOrderItems orderItems ;;
  let subtotal := calculateSubtotal orderItems in
  let shippingCost := calculateShippingCost subtotal in
  let totalAmount := (subtotal + shippingCost)%float in
  Normal (round (totalAmount * 100.0) / 100.0)%float.

(** Three items at 10.00, 29.99 and 60.01, in two different orders. *)
Definition scarf : OrderItem := mkOrderItem "Scarf" 10.00 1 "CLOTHING".
Definition gloves : OrderItem := mkOrderItem "Gloves" 29.99 1 "CLOTHING".
Definition boots : OrderItem := mkOrderItem "Boots" 60.01 1 "CLOTHING".

(* ================================================================= *)
(** ** Vocabulary of the specification *)

(** Two characters are the same up to letter case: they are equal, or one is
    a lower-case letter [a]..[z] and the other its upper-case form. *)
Definition same_letter (c k : ascii) : bool :=
  let a := nat_of_ascii c in
  let b := nat_of_ascii k in
  ((a =? b) || ((97 <=? a) && (a <=? 122) && (a - 32 =? b))
            || ((97 <=? b) && (b <=? 122) && (b - 32 =? a)))%nat.

(** Case-insensitive equality of two strings, character by character. *)
Fixpoint iequals (s t : string) : bool :=
  match s, t with
  | EmptyString, EmptyString => true
  | String c s', String k t' => same_letter c k && iequals s' t'
  | _, _ => false
  end.

(** An item breaks a precondition of the calculator: its quantity is not
    positive, its price is negative, or it has no name. *)
Definition violates (item : OrderItem) : Prop :=
  (quantity item <= 0)%Z \/ (price item <? 0)%float = true \/
  productName item = EmptyString.

(** A valid order: at least one item, and no item breaks a precondition. *)
Definition validOrder (orderItems : list OrderItem) : Prop :=
  orderItems <> [] /\ Forall (fun item => ~ violates item) orderItems.

(** An item meets the preconditions of the calculator: a positive quantity,
    a price that is at least zero, and a name. *)
Definition meets_preconditions (item : OrderItem) : Prop :=
  (0 < quantity item)%Z /\ (0 <=? price item)%float = true /\
  productName item <> EmptyString.

(** The quantity is a value of the 32-bit type [int]. *)
Definition quantity_is_int (item : OrderItem) : Prop :=
  (- 2 ^ 31 <= quantity item < 2 ^ 31)%Z.

(** The value is a number (anything but NaN): it compares equal to itself. *)
Definition is_number (x : float) : bool := (x =? x)%float.

(** The order of [demonstrateCleanOrderCalculation]. *)
Definition demoOrder : list OrderItem :=
  [ mkOrderItem "Laptop" 999.99 1 "ELECTRONICS";
    mkOrderItem "Programming Books" 29.99 6 "BOOKS";
    mkOrderItem "Mouse Pad" 9.99 2 "ACCESSORIES" ].

(* ================================================================= *)
(** ** Vocabulary for binary64 values *)

(** The non-negative values: the zeros, the positive finite numbers and
    +infinity. *)
Definition SFnonneg (x : spec_float) : Prop :=
  match x with
  | S754_zero _ | S754_finite false _ _ | S754_infinity false => True
  | _ => False
  end.

(** The result of rounding a non-negative mantissa [m] at exponent [e]. *)
Definition SFmk (m e : Z) : spec_float :=
  match m with
  | Z0 => S754_zero false
  | Zpos p => if (e <=? 971)%Z then S754_finite false p e else S754_infinity false
  | Zneg _ => S754_nan
  end.

(** The integer a binary64 value stands for, when it is a finite integer. *)
Definition SFint (x : spec_float) : option Z :=
  match x with
  | S754_zero _ => Some 0%Z
  | S754_finite s m e =>
      if (0 <=? e)%Z then Some (cond_Zopp s (Zpos m * 2 ^ e)%Z)
      else if (Zpos m mod 2 ^ (- e) =? 0)%Z
           then Some (cond_Zopp s (Zpos m / 2 ^ (- e))%Z)
           else None
  | _ => None
  end.

(** Rounding to two decimal places as the specification words it, on the
    exact value of a binary64 number: the whole number of cents nearest to
    [x], a tie going away from zero, [floor (|x| * 100 + 1/2)] with the sign
    of [x]. The value of [S754_finite s m e] is [m * 2^e]. *)
Definition nearest_cents (x : spec_float) : option Z :=
  match x with
  | S754_zero _ => Some 0%Z
  | S754_finite s m e =>
      Some (cond_Zopp s
              (if (0 <=? e)%Z then (100 * Zpos m * 2 ^ e)%Z
               else ((2 * 100 * Zpos m + 2 ^ (- e)) / (2 * 2 ^ (- e)))%Z))
  | _ => None
  end.

(* ================================================================= *)
(** ** The user example: C++ library functions *)

(** [::tolower] in the "C" locale: the letters [A]..[Z] (65..90) are moved
    to [a]..[z]; every other character is returned unchanged. *)
Definition tolower (c : ascii) : ascii :=
  let n := nat_of_ascii c in
  if ((65 <=? n) && (n <=? 90))%nat then ascii_of_nat (n + 32) else c.

(** [std::string::find_first_not_of (c)]: the position of the first
    character that is not [c]; [None] is [std::string::npos]. *)
Fixpoint find_first_not_of (c : ascii) (s : string) : option nat :=
  match s with
  | EmptyString => None
  | String x rest =>
      if Ascii.eqb x c then option_map S (find_first_not_of c rest)
      else Some 0%nat
  end.

(** [std::string::find_last_not_of (c)]: the position of the last character
    that is not [c]. *)
Fixpoint find_last_not_of (c : ascii) (s : string) : option nat :=
  match s with
  | EmptyString => None
  | String x rest =>
      match find_last_not_of c rest with
      | Some i => Some (S i)
      | None => if Ascii.eqb x c then None else Some 0%nat
      end
  end.

(** [std::string::find (t)]: the position of the first occurrence of [t]. *)
Definition find (t s : string) : option nat := String.index 0 t s.

(** [std::string::substr (pos, len)] for [pos <= size ()]: at most [len]
    characters from position [pos]. *)
Definition substr (pos len : nat) (s : string) : string :=
  String.substring pos len s.

(** [std::to_string (int)]: the decimal notation, with a minus sign for a
    negative number. *)
Definition to_string (n : Z) : string := NilZero.string_of_int (Z.to_int n).

(** [std::transform (s.begin (), s.end (), s.begin (), ::tolower)]. *)
Fixpoint transform_tolower (s : string) : string :=
  match s with
  | EmptyString => EmptyString
  | String c rest => String (tolower c) (transform_tolower rest)
  end.

(** *** Regular expressions

    The abstract syntax of the part of the ECMAScript grammar of
    [std::regex] that the example uses. [^] and [$] need no constructor:
    [std::regex_match] matches the whole string. *)
Inductive bracket_item : Type :=
  | Single (c : ascii)
  | Range (lo hi : ascii).

Inductive regex : Type :=
  | Void
  | Eps
  | Chr (c : ascii)
  | Bracket (items : list bracket_item)
  | Seq (r1 r2 : regex)
  | Alt (r1 r2 : regex)
  | Star (r : regex).

(** [r+] and [r{2,}]. *)
Definition Plus (r : regex) : regex := Seq r (Star r).
Definition AtLeast2 (r : regex) : regex := Seq r (Seq r (Star r)).

Definition in_item (c : ascii) (i : bracket_item) : bool :=
  match i with
  | Single x => Ascii.eqb c x
  | Range lo hi =>
      ((nat_of_ascii lo <=? nat_of_ascii c)
       && (nat_of_ascii c <=? nat_of_ascii hi))%nat
  end.

Definition in_bracket (items : list bracket_item) (c : ascii) : bool :=
  existsb (in_item c) items.

(** The expression matches the empty string. *)
Fixpoint nullable (r : regex) : bool :=
  match r with
  | Void => false
  | Eps => true
  | Chr _ => false
  | Bracket _ => false
  | Seq r1 r2 => nullable r1 && nullable r2
  | Alt r1 r2 => nullable r1 || nullable r2
  | Star _ => true
  end.

(** The expression for what may follow the character [c]. *)
Fixpoint deriv (c : ascii) (r : regex) : regex :=
  match r with
  | Void => Void
  | Eps => Void
  | Chr x => if Ascii.eqb c x then Eps else Void
  | Bracket items => if in_bracket items c then Eps else Void
  | Seq r1 r2 =>
      if nullable r1 then Alt (Seq (deriv c r1) r2) (deriv c r2)
      else Seq (deriv c r1) r2
  | Alt r1 r2 => Alt (deriv c r1) (deriv c r2)
  | Star r1 => Seq (deriv c r1) (Star r1)
  end.

(** [std::regex_match (s, r)]: the whole of [s] matches [r]. *)
Fixpoint regex_match (s : string) (r : regex) : bool :=
  match s with
  | EmptyString => nullable r
  | String c rest => regex_match rest (deriv c r)
  end.

(* ================================================================= *)
(** ** [namespace UserValidationConstants] *)

Module UserValidationConstants.
Definition MINIMUM_NAME_LENGTH : Z := 2.
Definition MINIMUM_AGE : Z := 0.
Definition MAXIMUM_AGE : Z := 150.
Definition ADULT_AGE_THRESHOLD : Z := 18.

(** [^[a-zA-Z0-9._%+-]+@[a-zA-Z0-9.-]+\.[a-zA-Z]{2,}$] *)
Definition EMAIL_PATTERN : regex :=
  Seq (Plus (Bracket [Range "a" "z"; Range "A" "Z"; Range "0" "9";
                      Single "."; Single "_"; Single "%"; Single "+";
                      Single "-"]))
   (Seq (Chr "@")
    (Seq (Plus (Bracket [Range "a" "z"; Range "A" "Z"; Range "0" "9";
                         Single "."; Single "-"]))
     (Seq (Chr ".")
          (AtLeast2 (Bracket [Range "a" "z"; Range "A" "Z"]))))).
End UserValidationConstants.

(* ================================================================= *)
(** ** Exceptions of the user example *)

(** The exceptions the user example throws and catches, all derived from
    [std::exception]: [ValidationError] (a [std::runtime_error]),
    [std::runtime_error], [std::invalid_argument], and any other one, thrown
    by an implementation of [UserRepository] or [EmailService]. *)
Inductive exception : Type :=
  | ValidationError (message : string)
  | std_runtime_error (message : string)
  | std_invalid_argument (message : string)
  | std_exception (message : string).

(** [ex.what ()]. *)
Definition exception_what (ex : exception) : string :=
  match ex with
  | ValidationError m | std_runtime_error m
  | std_invalid_argument m | std_exception m => m
  end.

Inductive outcome (A : Type) : Type :=
  | Returns (a : A)
  | Throws (ex : exception).
Arguments Returns {A} a.
Arguments Throws {A} ex.

(** Sequencing: a thrown exception skips what follows. *)
Definition and_then {A B : Type} (c : outcome A) (k : A -> outcome B)
  : outcome B :=
  match c with
  | Returns a => k a
  | Throws ex => Throws ex
  end.

(** [try { c } catch (const ValidationError& ex) { handler }]; any other
    exception passes through. *)
Definition catch_ValidationError {A : Type} (c : outcome A)
  (handler : exception -> outcome A) : outcome A :=
  match c with
  | Throws (ValidationError m) => handler (ValidationError m)
  | _ => c
  end.

(* ================================================================= *)
(** ** The bad example: [class u] *)

Module u.
Record t : Type := mk {
  n : string;
  e : string;
  a : Z;
  v : bool
}.

(** The constructor [u (n, e, a)]. *)
Definition new (n e : string) (a : Z) : t := mk n e a false.

Definition chk (self : t) : bool :=
  if (String.length (n self) <? 2)%nat then false
  else if match find "@" (e self) with None => true | Some _ => false end
       then false
  else if ((a self <? 0) || (150 <? a self))%Z then false
  else true.
End u.

(* ================================================================= *)
(** ** [enum class UserType] and [class User] *)

Inductive UserType : Type := Minor | Adult | Senior.

Record User : Type := mkUser {
  name : string;
  email : string;
  age : Z;
  isVerified : bool
}.

Definition trim (str : string) : string :=
  match find_first_not_of " " str with
  | None => EmptyString
  | Some first =>
      match find_last_not_of " " str with
      | Some last => substr first (last - first + 1) str
      | None => substr first (String.length str) str
      end
  end.

Definition validateName (nameValue : string) : outcome string :=
  if empty nameValue
     || match find_first_not_of " " nameValue with
        | None => true
        | Some _ => false
        end
  then Throws (ValidationError "Name cannot be null or empty")
  else
    let trimmedName := trim nameValue in
    if (Z.of_nat (String.length trimmedName)
        <? UserValidationConstants.MINIMUM_NAME_LENGTH)%Z
    then Throws (ValidationError
                   ("Name must be at least "
                    ++ to_string UserValidationConstants.MINIMUM_NAME_LENGTH
                    ++ " characters long"))
    else Returns trimmedName.

Definition validateEmail (emailValue : string) : outcome string :=
  if empty emailValue
  then Throws (ValidationError "Email cannot be null or empty")
  else
    let trimmedEmail := trim emailValue in
    if negb (regex_match trimmedEmail UserValidationConstants.EMAIL_PATTERN)
    then Throws (ValidationError "Email must be in valid format")
    else Returns (transform_tolower trimmedEmail).

Definition validateAge (ageValue : Z) : outcome Z :=
  if ((ageValue <? UserValidationConstants.MINIMUM_AGE)
      || (UserValidationConstants.MAXIMUM_AGE <? ageValue))%Z
  then Throws (ValidationError
                 ("Age must be between "
                  ++ to_string UserValidationConstants.MINIMUM_AGE
                  ++ " and "
                  ++ to_string UserValidationConstants.MAXIMUM_AGE))
  else Returns ageValue.

(** The constructor [User (name, email, age)]: the members are initialised
    in the order of their declaration, [name], [email], [age],
    [isVerified]. *)
Definition User_new (name email : string) (age : Z) : outcome User :=
  and_then (validateName name) (fun name' =>
  and_then (validateEmail email) (fun email' =>
  and_then (validateAge age) (fun age' =>
  Returns (mkUser name' email' age' false)))).

Definition getName (self : User) : string := name self.
Definition getEmail (self : User) : string := email self.
Definition getAge (self : User) : Z := age self.
Definition getIsVerified (self : User) : bool := isVerified self.

Definition setIsVerified (self : User) (verified : bool) : User :=
  mkUser (name self) (email self) (age self) verified.

Definition getUserType (self : User) : UserType :=
  if (65 <=? age self)%Z then Senior
  else if (UserValidationConstants.ADULT_AGE_THRESHOLD <=? age self)%Z
       then Adult
  else Minor.

Definition isValid (self : User) : outcome bool :=
  catch_ValidationError
    (and_then (validateName (name self)) (fun _ =>
     and_then (validateEmail (email self)) (fun _ =>
     and_then (validateAge (age self)) (fun _ =>
     Returns true))))
    (fun _ => Returns false).

Definition getUserTypeString (self : User) : string :=
  match getUserType self with
  | Minor => "Minor"
  | Adult => "Adult"
  | Senior => "Senior"
  end.

Definition getUserDescription (self : User) : outcome string :=
  and_then (isValid self) (fun valid =>
  if negb valid then Returns "Invalid User"%string
  else
    let ageCategory := getUserTypeString self in
    let verificationStatus :=
      if isVerified self then "Verified"%string else "Unverified"%string in
    Returns (ageCategory ++ " User: " ++ name self
             ++ " (" ++ verificationStatus ++ ")")%string).

(* ================================================================= *)
(** ** [class UserRepository], [class EmailService], [class UserService]

    The two interfaces have no implementation in the example. A call of one
    of their methods is a function on the state [W] of whatever stands
    behind them: it returns or throws, and leaves a new state. What
    [UserService] itself writes to [std::cout] is kept as a list of lines. *)

Module UserRepository.
Record t (W : Type) : Type := mk {
  saveUser : User -> W -> outcome unit * W;
  getUserByEmail : string -> W -> outcome (option User) * W
}.
Arguments saveUser {W} _ _ _.
Arguments getUserByEmail {W} _ _ _.
End UserRepository.

Module EmailService.
Record t (W : Type) : Type := mk {
  sendWelcomeEmail : string -> string -> W -> outcome unit * W
}.
Arguments sendWelcomeEmail {W} _ _ _ _.
End EmailService.

Module UserService.
Record t (W : Type) : Type := mk {
  userRepository : UserRepository.t W;
  emailService : EmailService.t W
}.
Arguments userRepository {W} _.
Arguments emailService {W} _.

(** The state a method of the service runs in. *)
Record state (W : Type) : Type := mkState {
  collaborators : W;
  cout : list string
}.
Arguments mkState {W} _ _.
Arguments collaborators {W} _.
Arguments cout {W} _.

(** The constructor: a null pointer is [None]. *)
Definition new {W : Type} (userRepository : option (UserRepository.t W))
  (emailService : option (EmailService.t W)) : outcome (t W) :=
  match userRepository with
  | None => Throws (std_invalid_argument "UserRepository cannot be null")
  | Some repository =>
      match emailService with
      | None => Throws (std_invalid_argument "EmailService cannot be null")
      | Some service => Returns (mk W repository service)
      end
  end.

Definition validateUserDoesNotExist {W : Type} (self : t W) (email : string)
  (s : state W) : outcome unit * state W :=
  let (existingUser, w) :=
    UserRepository.getUserByEmail (userRepository self) email
                                  (collaborators s) in
  let s' := mkState w (cout s) in
  match existingUser with
  | Throws ex => (Throws ex, s')
  | Returns (Some _) =>
      (Throws (std_runtime_error
                 ("User with email " ++ email ++ " already exists")), s')
  | Returns None => (Returns tt, s')
  end.

Definition createUser (name email : string) (age : Z) : outcome User :=
  catch_ValidationError (User_new name email age)
    (fun ex => Throws (ValidationError
                         ("Invalid user data: " ++ exception_what ex))).

Definition saveUser {W : Type} (self : t W) (user : User) (s : state W)
  : outcome unit * state W :=
  let (saved, w) :=
    UserRepository.saveUser (userRepository self) user (collaborators s) in
  let s' := mkState w (cout s) in
  match saved with
  | Returns tt => (Returns tt, s')
  | Throws ex =>
      (Throws (std_runtime_error
                 ("Failed to save user to database: " ++ exception_what ex)),
       s')
  end.

Definition sendWelcomeEmail {W : Type} (self : t W) (user : User)
  (s : state W) : outcome unit * state W :=
  let (sent, w) :=
    EmailService.sendWelcomeEmail (emailService self)
      (getEmail user) (getName user) (collaborators s) in
  match sent with
  | Returns tt => (Returns tt, mkState w (cout s))
  | Throws ex =>
      (Returns tt,
       mkState w
         (cout s ++ ["Warning: Failed to send welcome email to "
                     ++ getEmail user ++ ": " ++ exception_what ex]%string))
  end.

Definition registerUser {W : Type} (self : t W) (name email : string)
  (age : Z) (s : state W) : outcome User * state W :=
  match validateUserDoesNotExist self email s with
  | (Throws ex, s1) => (Throws ex, s1)
  | (Returns tt, s1) =>
      match createUser name email age with
      | Throws ex => (Throws ex, s1)
      | Returns newUser =>
          match saveUser self newUser s1 with
          | (Throws ex, s2) => (Throws ex, s2)
          | (Returns tt, s2) =>
              match sendWelcomeEmail self newUser s2 with
              | (Throws ex, s3) => (Throws ex, s3)
              | (Returns tt, s3) => (Returns newUser, s3)
              end
          end
      end
  end.
End UserService.

(** Collaborators that record the calls they receive and never fail. *)
Inductive call : Type :=
  | called_getUserByEmail (email : string)
  | called_saveUser (user : User)
  | called_sendWelcomeEmail (email name : string).

Definition recordingRepository (found : option User)
  : UserRepository.t (list call) :=
  UserRepository.mk (list call)
    (fun user log => (Returns tt, log ++ [called_saveUser user]))
    (fun email log => (Returns found, log ++ [called_getUserByEmail email])).

Definition recordingEmailService : EmailService.t (list call) :=
  EmailService.mk (list call)
    (fun email name log =>
       (Returns tt, log ++ [called_sendWelcomeEmail email name])).

(* ================================================================= *)
(** ** Vocabulary for the user example *)

(** Every character of the string satisfies [p]. *)
Fixpoint string_forall (p : ascii -> bool) (s : string) : bool :=
  match s with
  | EmptyString => true
  | String c rest => p c && string_forall p rest
  end.

Definition is_space (c : ascii) : bool := Ascii.eqb c " ".

(** [n] spaces. *)
Fixpoint spaces (n : nat) : string :=
  match n with
  | O => EmptyString
  | S n' => String " " (spaces n')
  end.

(** The string without its leading spaces. *)
Fixpoint ltrim (s : string) : string :=
  match s with
  | EmptyString => EmptyString
  | String c rest => if is_space c then ltrim rest else s
  end.

(** The string without its trailing spaces. *)
Fixpoint rtrim (s : string) : string :=
  match s with
  | EmptyString => EmptyString
  | String c rest =>
      match rtrim rest with
      | EmptyString => if is_space c then EmptyString else String c EmptyString
      | rest' => String c rest'
      end
  end.

(** The first and the last character of a string. *)
Definition first_char (s : string) : option ascii := String.get 0 s.

Fixpoint last_char (s : string) : option ascii :=
  match s with
  | EmptyString => None
  | String c EmptyString => Some c
  | String _ rest => last_char rest
  end.

(** The strings a regular expression denotes. *)
Inductive Matches : regex -> string -> Prop :=
  | M_Eps : Matches Eps EmptyString
  | M_Chr c : Matches (Chr c) (String c EmptyString)
  | M_Bracket items c :
      in_bracket items c = true ->
      Matches (Bracket items) (String c EmptyString)
  | M_Seq r1 r2 s1 s2 :
      Matches r1 s1 -> Matches r2 s2 -> Matches (Seq r1 r2) (s1 ++ s2)
  | M_Alt_l r1 r2 s : Matches r1 s -> Matches (Alt r1 r2) s
  | M_Alt_r r1 r2 s : Matches r2 s -> Matches (Alt r1 r2) s
  | M_Star_nil r : Matches (Star r) EmptyString
  | M_Star_cons r s1 s2 :
      Matches r s1 -> Matches (Star r) s2 -> Matches (Star r) (s1 ++ s2).

(** The three character classes of [EMAIL_PATTERN]. *)
Definition local_char : ascii -> bool :=
  in_bracket [Range "a" "z"; Range "A" "Z"; Range "0" "9";
              Single "."; Single "_"; Single "%"; Single "+"; Single "-"].
Definition domain_char : ascii -> bool :=
  in_bracket [Range "a" "z"; Range "A" "Z"; Range "0" "9";
              Single "."; Single "-"].
Definition letter : ascii -> bool :=
  in_bracket [Range "a" "z"; Range "A" "Z"].

Definition is_upper (c : ascii) : bool :=
  ((65 <=? nat_of_ascii c) && (nat_of_ascii c <=? 90))%nat.

(** The strings [local@domain.tld]: a non-empty local part, a non-empty
    domain part, and at least two letters after a dot. *)
Definition email_shape (s : string) : Prop :=
  exists l d t : string,
    s = (l ++ "@" ++ d ++ "." ++ t)%string /\
    l <> EmptyString /\ string_forall local_char l = true /\
    d <> EmptyString /\ string_forall domain_char d = true /\
    (2 <= String.length t)%nat /\ string_forall letter t = true.

(** The 256 characters. *)
Definition all_ascii : list ascii := map ascii_of_nat (seq 0 256).

(* ================================================================= *)
(** ** Characters and strings *)

Lemma nat_of_toupper c :
  nat_of_ascii (toupper c) =
  let n := nat_of_ascii c in
  if ((97 <=? n) && (n <=? 122))%nat then (n - 32)%nat else n.
Proof.
  unfold toupper. cbv zeta.
  pose proof (nat_ascii_bounded c) as Hb.
  destruct ((97 <=? nat_of_ascii c) && (nat_of_ascii c <=? 122))%nat;
    [|reflexivity].
  apply nat_ascii_embedding. lia.
Qed.

Lemma nat_of_ascii_inj c k : nat_of_ascii c = nat_of_ascii k -> c = k.
Proof.
  intro H. rewrite <- (ascii_nat_embedding c), <- (ascii_nat_embedding k), H.
  reflexivity.
Qed.

Ltac nat_tests :=
  repeat match goal with
         | H : (_ <=? _)%nat = true |- _ => apply Nat.leb_le in H
         | H : (_ <=? _)%nat = false |- _ => apply Nat.leb_gt in H
         end.

(** [toupper] identifies exactly the characters that differ by letter case. *)
Lemma toupper_eq_iff c k : toupper c = toupper k <-> same_letter c k = true.
Proof.
  unfold same_letter. cbv zeta. split.
  - intro H. apply (f_equal nat_of_ascii) in H.
    rewrite !nat_of_toupper in H. cbv zeta in H.
    destruct (97 <=? nat_of_ascii c)%nat eqn:E1,
             (nat_of_ascii c <=? 122)%nat eqn:E2,
             (97 <=? nat_of_ascii k)%nat eqn:E3,
             (nat_of_ascii k <=? 122)%nat eqn:E4;
      cbn [andb orb] in *; nat_tests;
      repeat match goal with
             | |- context [(?a =? ?b)%nat] => destruct (Nat.eqb_spec a b)
             end; cbn [andb orb]; try reflexivity; try lia.
  - intro H. apply nat_of_ascii_inj. rewrite !nat_of_toupper. cbv zeta.
    destruct (97 <=? nat_of_ascii c)%nat eqn:E1,
             (nat_of_ascii c <=? 122)%nat eqn:E2,
             (97 <=? nat_of_ascii k)%nat eqn:E3,
             (nat_of_ascii k <=? 122)%nat eqn:E4;
      cbn [andb orb] in *; nat_tests;
      repeat match goal with
             | H : context [(?a =? ?b)%nat] |- _ => destruct (Nat.eqb_spec a b)
             end; cbn [andb orb] in *; try discriminate; try lia.
Qed.

Lemma toUpperCase_eq_iff s : forall t,
  toUpperCase s = toUpperCase t <-> iequals s t = true.
Proof.
  induction s as [|c s IH]; intros [|k t]; cbn;
    try (split; discriminate).
  - split; reflexivity.
  - rewrite andb_true_iff, <- toupper_eq_iff, <- IH. split.
    + intro H; injection H; auto.
    + intros [-> ->]; reflexivity.
Qed.

(** Comparing the upper-cased category with an upper-case key is the
    case-insensitive comparison of the category with that key. *)
Lemma eqb_toUpperCase s key :
  toUpperCase key = key ->
  String.eqb (toUpperCase s) key = iequals s key.
Proof.
  intro Hk. destruct (iequals s key) eqn:E.
  - apply String.eqb_eq. rewrite <- Hk. apply toUpperCase_eq_iff, E.
  - apply String.eqb_neq. intro H. rewrite <- Hk in H.
    apply toUpperCase_eq_iff in H. congruence.
Qed.

Lemma iequals_upper s key :
  toUpperCase key = key -> iequals s key = true -> toUpperCase s = key.
Proof.
  intros Hk H. rewrite <- Hk. apply toUpperCase_eq_iff, H.
Qed.

Lemma empty_true_iff s : empty s = true <-> s = EmptyString.
Proof. destruct s; cbn; split; congruence. Qed.

(* ================================================================= *)
(** ** Pricing rules *)

(** [calculateItemTotal] written out on the price, the quantity and the
    category: the upper-cased category is compared with the two keys, which
    is a comparison up to letter case. *)
Lemma calculateItemTotal_eq (item : OrderItem) :
  calculateItemTotal item =
    if iequals (category item) "ELECTRONICS" then
      (price item * int_to_double (quantity item) * (1 + 0.10))%float
    else if iequals (category item) "BOOKS" then
      if (5 <=? quantity item)%Z then
        (price item * int_to_double (quantity item) * (1 - 0.05))%float
      else (price item * int_to_double (quantity item))%float
    else (price item * int_to_double (quantity item))%float.
Proof.
  unfold calculateItemTotal. cbv zeta.
  rewrite !eqb_toUpperCase by reflexivity.
  reflexivity.
Qed.

(* ================================================================= *)
(** ** Comparisons of binary64 numbers *)

Lemma SFcompare_antisym x y :
  SFcompare y x = option_map CompOpp (SFcompare x y).
Proof.
  destruct x as [sx|sx| |sx mx ex], y as [sy|sy| |sy my ey];
    try destruct sx; try destruct sy; try reflexivity; cbn;
    rewrite (Z.compare_antisym ex ey);
    destruct (ex ?= ey)%Z; cbn; try reflexivity; f_equal.
  - rewrite CompOpp_involutive. exact (Pos.compare_cont_antisym my mx Eq).
  - symmetry. exact (Pos.compare_cont_antisym mx my Eq).
Qed.

(** [x < y] excludes [y <= x], also when an operand is NaN. *)
Lemma ltb_not_leb (x y : float) :
  (x <? y)%float = true -> (y <=? x)%float = false.
Proof.
  rewrite FloatAxioms.ltb_spec, FloatAxioms.leb_spec. unfold SFltb, SFleb.
  rewrite (SFcompare_antisym (Prim2SF x) (Prim2SF y)).
  destruct (SFcompare (Prim2SF x) (Prim2SF y)) as [[]|]; cbn; congruence.
Qed.

Lemma leb_not_ltb (x y : float) :
  (x <=? y)%float = true -> (y <? x)%float = false.
Proof.
  intro H. destruct (y <? x)%float eqn:E; [|reflexivity].
  apply ltb_not_leb in E. congruence.
Qed.

(* ================================================================= *)
(** ** Rounding in binary64

    The lemmas below read the reference implementation of the IEEE 754
    operations ([SpecFloat]) on integers: a finite number is a mantissa [m]
    and an exponent [e] and stands for [m * 2^e]. *)

Section Binary64.
Local Open Scope Z_scope.

(** *** Binary digits *)

Lemma digits2_pos_size p : digits2_pos p = Pos.size p.
Proof. induction p; cbn; congruence. Qed.

Lemma digits2_pos_bounds p :
  2 ^ (Zpos (digits2_pos p) - 1) <= Zpos p < 2 ^ Zpos (digits2_pos p).
Proof.
  rewrite digits2_pos_size. split.
  - pose proof (Pos.size_le p) as H.
    apply Pos2Z.pos_le_pos in H. rewrite Pos2Z.inj_pow in H.
    change (Zpos p~0) with (2 * Zpos p) in H.
    replace (Zpos (Pos.size p)) with (Zpos (Pos.size p) - 1 + 1) in H by lia.
    rewrite Z.pow_add_r in H by lia. lia.
  - pose proof (Pos.size_gt p) as H.
    apply Pos2Z.pos_lt_pos in H. now rewrite Pos2Z.inj_pow in H.
Qed.

Lemma iter_xO_val p k : Zpos (Pos.iter xO p k) = Zpos p * 2 ^ Zpos k.
Proof.
  induction k as [|k IH] using Pos.peano_ind.
  - cbn. lia.
  - rewrite Pos.iter_succ, Pos2Z.inj_succ, Z.pow_succ_r by lia.
    change (Zpos (Pos.iter xO p k)~0) with (2 * Zpos (Pos.iter xO p k)). lia.
Qed.

Lemma digits2_iter_xO p k :
  digits2_pos (Pos.iter xO p k) = (digits2_pos p + k)%positive.
Proof.
  induction k as [|k IH] using Pos.peano_ind.
  - cbn. lia.
  - rewrite Pos.iter_succ. cbn. rewrite IH. lia.
Qed.

(** A number below [2^k] has at most [k] binary digits. *)
Lemma digits2_pos_le_pow p k :
  0 <= k -> Zpos p < 2 ^ k -> Zpos (digits2_pos p) <= k.
Proof.
  intros Hk H. destruct (Z.le_gt_cases (Zpos (digits2_pos p)) k) as [|Hgt]; [assumption|].
  pose proof (digits2_pos_bounds p) as [Hlo _].
  assert (2 ^ k <= 2 ^ (Zpos (digits2_pos p) - 1)) by (apply Z.pow_le_mono_r; lia).
  lia.
Qed.

(** *** Canonical mantissas *)

Lemma canonical_iff m e :
  canonical_mantissa prec emax m e = true <->
  Z.max (Zpos (digits2_pos m) + e - 53) (-1074) = e.
Proof.
  unfold canonical_mantissa, fexp, SpecFloat.emin, prec, emax.
  rewrite Z.eqb_eq. reflexivity.
Qed.

Lemma bounded_iff m e :
  bounded prec emax m e = true <->
  Z.max (Zpos (digits2_pos m) + e - 53) (-1074) = e /\ e <= 971.
Proof.
  unfold bounded. rewrite andb_true_iff, canonical_iff, Z.leb_le.
  reflexivity.
Qed.

(** *** Right shifts *)

Lemma shr_m_shr_1 mrs : 0 <= shr_m mrs -> shr_m (shr_1 mrs) = shr_m mrs / 2.
Proof.
  destruct mrs as [m r s]. cbn [shr_m]. intro Hm.
  destruct m as [|[p|p|]|p]; cbn [shr_1 shr_m]; try lia.
  - reflexivity.
  - change (Zpos p~1) with (2 * Zpos p + 1).
    apply Z.div_unique with 1; lia.
  - change (Zpos p~0) with (2 * Zpos p).
    apply Z.div_unique with 0; lia.
  - reflexivity.
Qed.

Lemma shr_m_iter p : forall mrs,
  0 <= shr_m mrs ->
  shr_m (iter_pos shr_1 p mrs) = shr_m mrs / 2 ^ Zpos p /\
  0 <= shr_m (iter_pos shr_1 p mrs).
Proof.
  assert (H1 : forall mrs, 0 <= shr_m mrs -> 0 <= shr_m (shr_1 mrs)).
  { intros mrs Hm. rewrite shr_m_shr_1 by assumption. apply Z.div_pos; lia. }
  assert (Hpow : forall q, 0 < 2 ^ Zpos q) by (intro; apply Z.pow_pos_nonneg; lia).
  induction p as [p IH|p IH|]; intros mrs Hm; cbn [iter_pos].
  - destruct (IH (shr_1 mrs) (H1 mrs Hm)) as [E1 N1].
    destruct (IH _ N1) as [E2 N2].
    split; [|exact N2].
    rewrite E2, E1, shr_m_shr_1 by assumption.
    pose proof (Hpow p).
    rewrite !Z.div_div by lia.
    f_equal. rewrite (Pos2Z.inj_xI p).
    replace (2 * Zpos p + 1) with (1 + (Zpos p + Zpos p)) by lia.
    rewrite !Z.pow_add_r by lia. lia.
  - destruct (IH mrs Hm) as [E1 N1].
    destruct (IH _ N1) as [E2 N2].
    split; [|exact N2].
    rewrite E2, E1.
    pose proof (Hpow p).
    rewrite !Z.div_div by lia.
    f_equal. rewrite (Pos2Z.inj_xO p).
    replace (2 * Zpos p) with (Zpos p + Zpos p) by lia.
    rewrite !Z.pow_add_r by lia. lia.
  - split; [|apply H1, Hm]. rewrite shr_m_shr_1 by assumption. reflexivity.
Qed.

(** [shr_fexp]: the exponent moves up to the canonical one (if it was lower),
    the mantissa is divided accordingly. *)
Lemma shr_fexp_spec m e l mrs e' :
  0 <= m ->
  shr_fexp prec emax m e l = (mrs, e') ->
  e <= e' /\
  shr_m mrs = m / 2 ^ (e' - e) /\
  0 <= shr_m mrs /\
  (-1074 < e' -> 0 < m -> 0 < shr_m mrs).
Proof.
  intros Hm. unfold shr_fexp, shr.
  assert (Hrec : shr_m (shr_record_of_loc m l) = m)
    by (destruct l as [|[]]; reflexivity).
  destruct (fexp prec emax (Zdigits2 m + e) - e) as [|n|n] eqn:En;
    intro H; injection H as <- <-.
  - rewrite Hrec, Z.sub_diag, Z.div_1_r. repeat split; lia.
  - destruct (shr_m_iter n (shr_record_of_loc m l)) as [E N]; [lia|].
    rewrite Hrec in E.
    replace (e + Zpos n - e) with (Zpos n) by lia.
    repeat split; try lia; try assumption.
    intros He' Hpos. rewrite E.
    destruct m as [|p|p]; try lia. cbn [Zdigits2] in En.
    unfold fexp, SpecFloat.emin, prec, emax in En.
    pose proof (digits2_pos_bounds p) as [Hlo _].
    assert (Hn : Zpos n = Zpos (digits2_pos p) - 53) by lia.
    apply Z.div_str_pos. split; [apply Z.pow_pos_nonneg; lia|].
    etransitivity; [|exact Hlo]. apply Z.pow_le_mono_r; lia.
  - rewrite Hrec, Z.sub_diag, Z.div_1_r. repeat split; lia.
Qed.

Lemma round_nearest_even_bounds m l :
  m <= round_nearest_even m l <= m + 1.
Proof.
  destruct l as [|[]]; cbn; try lia. destruct (Z.even m); lia.
Qed.

(** What rounding a positive mantissa [mx] at exponent [ex] returns: a
    mantissa [m] at an exponent [e] that is not below [ex], with [m] not
    below the truncation of the exact value to the exponent [e]. *)
Lemma binary_round_aux_spec mx ex lx :
  0 < mx ->
  exists m e,
    binary_round_aux prec emax false mx ex lx = SFmk m e /\
    0 <= m /\ ex <= e /\ mx / 2 ^ (e - ex) <= m /\
    (-1074 < e -> 0 < m).
Proof.
  intro Hmx. unfold binary_round_aux.
  destruct (shr_fexp prec emax mx ex lx) as [mrs' e'] eqn:E1.
  destruct (shr_fexp_spec _ _ _ _ _ (Z.lt_le_incl _ _ Hmx) E1)
    as (He' & Hm' & Hnn' & Hpos').
  set (m1 := round_nearest_even (shr_m mrs') (loc_of_shr_record mrs')).
  pose proof (round_nearest_even_bounds (shr_m mrs') (loc_of_shr_record mrs')) as Hm1.
  fold m1 in Hm1.
  destruct (shr_fexp prec emax m1 e' loc_Exact) as [mrs'' e''] eqn:E2.
  assert (Hm1nn : 0 <= m1) by lia.
  destruct (shr_fexp_spec _ _ _ _ _ Hm1nn E2) as (He'' & Hm'' & Hnn'' & Hpos'').
  exists (shr_m mrs''), e''.
  split; [|split; [assumption|split; [lia|split]]].
  - unfold SFmk. destruct (shr_m mrs''); reflexivity.
  - rewrite Hm''.
    assert (H2a : 0 < 2 ^ (e' - ex)) by (apply Z.pow_pos_nonneg; lia).
    assert (H2b : 0 < 2 ^ (e'' - e')) by (apply Z.pow_pos_nonneg; lia).
    replace (e'' - ex) with ((e' - ex) + (e'' - e')) by lia.
    rewrite Z.pow_add_r, <- Z.div_div by lia.
    rewrite <- Hm'. apply Z.div_le_mono; lia.
  - intro He. destruct (Z.eq_dec m1 0) as [Hz|Hnz].
    + (* the rounded mantissa is zero: no second shift *)
      exfalso. rewrite Hz in E2. unfold shr_fexp, shr in E2. cbn [Zdigits2] in E2.
      assert (Hemin : -1074 <= e').
      { unfold shr_fexp, shr in E1.
        destruct (fexp prec emax (Zdigits2 mx + ex) - ex) as [|n|n] eqn:En;
          injection E1 as _ <-;
          unfold fexp, SpecFloat.emin, prec, emax in En; lia. }
      destruct (fexp prec emax (0 + e') - e') as [|n|n] eqn:En;
        unfold fexp, SpecFloat.emin, prec, emax in En; try lia;
        injection E2 as _ <-; lia.
    + apply Hpos''; lia.
Qed.

Lemma pos_compare_cont_le m p :
  Zpos m <= Zpos p ->
  match Pos.compare_cont Eq m p with Gt => false | _ => true end = true.
Proof.
  intro H. change (Pos.compare_cont Eq m p) with (Pos.compare m p).
  destruct (Pos.compare_spec m p); try reflexivity. lia.
Qed.

(** Rounding never goes below a number of the format that the exact value
    reaches. *)
Lemma binary_round_aux_ge mc ec mx ex lx :
  0 < mx ->
  valid_binary (binary_round_aux prec emax false mx ex lx) = true ->
  bounded prec emax mc ec = true ->
  (ex <= ec -> Zpos mc * 2 ^ (ec - ex) <= mx) ->
  SFleb (S754_finite false mc ec)
        (binary_round_aux prec emax false mx ex lx) = true.
Proof.
  intros Hmx.
  destruct (binary_round_aux_spec mx ex lx Hmx)
    as (m & e & -> & Hnn & Hle & Hdiv & Hpos).
  intros Hvalid HC Hval. apply bounded_iff in HC. destruct HC as [HC HCmax].
  assert (H2 : forall k, 0 <= k -> 0 < 2 ^ k) by (intros; apply Z.pow_pos_nonneg; lia).
  unfold SFmk in *. destruct m as [|p|p]; [exfalso| |lia].
  - assert (He : e <= -1074) by (destruct (Z.le_gt_cases e (-1074)); [assumption|lia]).
    assert (Hec : ex <= ec) by lia.
    specialize (Hval Hec).
    assert (0 < mx / 2 ^ (e - ex)); [|lia].
    apply Z.div_str_pos. split; [apply H2; lia|].
    etransitivity; [|exact Hval].
    assert (2 ^ (e - ex) <= 2 ^ (ec - ex)) by (apply Z.pow_le_mono_r; lia).
    nia.
  - destruct (e <=? 971) eqn:Ee; [|reflexivity].
    cbn [valid_binary] in Hvalid. apply bounded_iff in Hvalid.
    destruct Hvalid as [Hp _].
    unfold SFleb, SFcompare.
    destruct (Z.compare_spec ec e) as [Heq | Hlt | Hgt]; [|reflexivity|exfalso].
    + subst e. specialize (Hval Hle).
      assert (Zpos mc <= Zpos p).
      { etransitivity; [|exact Hdiv].
        apply Z.div_le_lower_bound; [apply H2; lia | lia]. }
      destruct (Pos.compare_cont Eq mc p) eqn:Ec; try reflexivity.
      change (Pos.compare_cont Eq mc p) with (Pos.compare mc p) in Ec.
      apply Pos.compare_gt_iff in Ec. lia.
    + assert (Hec : ex <= ec) by lia. specialize (Hval Hec).
      pose proof (digits2_pos_bounds mc) as [Hmc _].
      pose proof (digits2_pos_bounds p) as [_ Hpu].
      assert (Hdm : Zpos (digits2_pos mc) = 53) by lia.
      assert (Hdp : Zpos (digits2_pos p) <= 53) by lia.
      rewrite Hdm in Hmc. change (2 ^ (53 - 1)) with 4503599627370496 in Hmc.
      assert (Hp53 : Zpos p < 2 ^ 53).
      { eapply Z.lt_le_trans; [exact Hpu|]. apply Z.pow_le_mono_r; lia. }
      change (2 ^ 53) with 9007199254740992 in Hp53.
      assert (Hge : Zpos mc * 2 ^ (ec - e) <= Zpos p).
      { etransitivity; [|exact Hdiv].
        apply Z.div_le_lower_bound; [apply H2; lia|].
        replace (ec - ex) with ((e - ex) + (ec - e)) in Hval by lia.
        rewrite Z.pow_add_r in Hval by lia. lia. }
      assert (2 ^ 1 <= 2 ^ (ec - e)) by (apply Z.pow_le_mono_r; lia).
      change (2 ^ 1) with 2 in *. nia.
Qed.

(** [shl_align] keeps the value. *)
Lemma shl_align_spec m e e' :
  snd (shl_align m e e') = Z.min e e' /\
  Zpos (fst (shl_align m e e')) = Zpos m * 2 ^ (e - Z.min e e').
Proof.
  unfold shl_align. destruct (e' - e) as [|k|k] eqn:E; cbn [fst snd].
  - replace (Z.min e e') with e by lia. rewrite Z.sub_diag. split; lia.
  - replace (Z.min e e') with e by lia. rewrite Z.sub_diag. split; lia.
  - replace (Z.min e e') with e' by lia. split; [reflexivity|].
    rewrite iter_xO_val. f_equal. f_equal. lia.
Qed.

Lemma shl_align_digits m e e' :
  Zpos (digits2_pos (fst (shl_align m e e'))) =
  Zpos (digits2_pos m) + (e - Z.min e e').
Proof.
  unfold shl_align. destruct (e' - e) as [|k|k] eqn:E; cbn [fst snd].
  - lia.
  - lia.
  - rewrite digits2_iter_xO. lia.
Qed.

(** A number with at most 53 digits is written in canonical form by
    [shl_align]. *)
Lemma shl_align_canonical p e :
  Zpos (digits2_pos p) <= 53 -> -1074 <= e ->
  canonical_mantissa prec emax
    (fst (shl_align p e (fexp prec emax (Zpos (digits2_pos p) + e))))
    (snd (shl_align p e (fexp prec emax (Zpos (digits2_pos p) + e)))) = true.
Proof.
  intros Hd He. apply canonical_iff.
  destruct (shl_align_spec p e (fexp prec emax (Zpos (digits2_pos p) + e)))
    as [Hs _].
  rewrite Hs, shl_align_digits.
  unfold fexp, SpecFloat.emin, prec, emax. lia.
Qed.

(** A canonical mantissa and exponent go through rounding unchanged. *)
Lemma binary_round_aux_canonical s m e :
  bounded prec emax m e = true ->
  binary_round_aux prec emax s (Zpos m) e loc_Exact = S754_finite s m e.
Proof.
  intro Hb. apply bounded_iff in Hb. destruct Hb as [Hc He].
  unfold binary_round_aux.
  assert (Hshr : shr_fexp prec emax (Zpos m) e loc_Exact =
                 ({| shr_m := Zpos m; shr_r := false; shr_s := false |}, e)).
  { unfold shr_fexp. cbn [Zdigits2].
    replace (fexp prec emax (Zpos (digits2_pos m) + e) - e) with 0
      by (unfold fexp, SpecFloat.emin, prec, emax; lia).
    reflexivity. }
  rewrite Hshr. cbn [shr_m loc_of_shr_record round_nearest_even].
  rewrite Hshr. cbn [shr_m].
  apply Z.leb_le in He. unfold prec, emax. cbn. unfold prec, emax in He. cbn in He.
  rewrite He. reflexivity.
Qed.

Lemma binary_round_exact s p e :
  Zpos (digits2_pos p) <= 53 -> -1074 <= e -> e <= 971 ->
  binary_round prec emax s p e =
  S754_finite s
    (fst (shl_align p e (fexp prec emax (Zpos (digits2_pos p) + e))))
    (snd (shl_align p e (fexp prec emax (Zpos (digits2_pos p) + e)))).
Proof.
  intros Hd He He'. unfold binary_round.
  pose proof (shl_align_canonical p e Hd He) as Hc.
  destruct (shl_align_spec p e (fexp prec emax (Zpos (digits2_pos p) + e)))
    as [Hs _].
  destruct (shl_align p e (fexp prec emax (Zpos (digits2_pos p) + e)))
    as [mz ez]. cbn [fst snd] in *.
  apply binary_round_aux_canonical. unfold bounded. rewrite Hc. cbn.
  apply Z.leb_le. lia.
Qed.


Lemma SFleb_zero_nonneg x : SFleb (S754_zero false) x = true -> SFnonneg x.
Proof. destruct x as [s|[]| |[] m e]; cbn; intros; try discriminate; exact I. Qed.

Lemma binary_round_aux_nonneg mx ex lx :
  0 < mx -> SFnonneg (binary_round_aux prec emax false mx ex lx).
Proof.
  intro Hmx.
  destruct (binary_round_aux_spec mx ex lx Hmx) as (m & e & -> & Hnn & _).
  unfold SFmk. destruct m as [|p|p]; [exact I| |lia].
  destruct (e <=? 971); exact I.
Qed.

Lemma binary_round_nonneg p e : SFnonneg (binary_round prec emax false p e).
Proof.
  unfold binary_round. destruct (shl_align p e _) as [mz ez].
  apply binary_round_aux_nonneg. lia.
Qed.

Lemma SFmul_nonneg x my ey :
  SFnonneg x -> SFnonneg (SFmul prec emax x (S754_finite false my ey)).
Proof.
  destruct x as [s|[]| |[] mx ex]; cbn [SFnonneg SFmul xorb]; try tauto.
  intros _. apply binary_round_aux_nonneg. lia.
Qed.

Lemma SFadd_nonneg x y :
  SFnonneg x -> SFnonneg y -> SFnonneg (SFadd prec emax x y).
Proof.
  destruct x as [sx|[]| |[] mx ex], y as [sy|[]| |[] my ey];
    cbn [SFnonneg SFadd]; try tauto.
  - destruct sx, sy; intros; exact I.
  - intros _ _. unfold cond_Zopp.
    rewrite <- Pos2Z.inj_add. cbn [binary_normalize].
    apply binary_round_nonneg.
Qed.

(** The conversion of a positive [int] is exact: the result is finite and
    positive. *)
Lemma int_to_double_finite q :
  0 < q < 2 ^ 31 ->
  exists m e, Prim2SF (of_uint63 (of_Z q)) = S754_finite false m e.
Proof.
  intros [Hq Hq'].
  rewrite of_uint63_spec.
  change (Uint63Axioms.to_Z (of_Z q)) with (Uint63.to_Z (of_Z q)).
  rewrite Uint63.of_Z_spec.
  assert (Hw : 2 ^ 31 < wB) by reflexivity.
  rewrite Z.mod_small by lia.
  destruct q as [|p|p]; try lia. cbn [binary_normalize].
  rewrite binary_round_exact; try lia.
  - eexists. eexists. reflexivity.
  - pose proof (digits2_pos_le_pow p 31). lia.
Qed.

Lemma SFleb_finite_inv mc ec y :
  SFleb (S754_finite false mc ec) y = true ->
  y = S754_infinity false \/
  exists my ey, y = S754_finite false my ey /\
                (ec < ey \/ (ec = ey /\ Zpos mc <= Zpos my)).
Proof.
  destruct y as [s|[]| |[] my ey]; cbn; try discriminate; auto.
  intro H. right. exists my, ey. split; [reflexivity|].
  destruct (Z.compare_spec ec ey) as [Heq|Hlt|Hgt]; try discriminate; auto.
  right. split; [assumption|].
  change (Pos.compare_cont Eq mc my) with (Pos.compare mc my) in H.
  destruct (Pos.compare_spec mc my); try discriminate; lia.
Qed.

Lemma SFleb_finite_refl m e :
  SFleb (S754_finite false m e) (S754_finite false m e) = true.
Proof.
  cbn. rewrite Z.compare_refl.
  change (Pos.compare_cont Eq m m) with (Pos.compare m m).
  now rewrite Pos.compare_refl.
Qed.

(** Bounds on the mantissa and exponent of a valid finite number. *)
Lemma valid_finite_facts s m e :
  valid_binary (S754_finite s m e) = true ->
  -1074 <= e <= 971 /\ Zpos m < 2 ^ 53 /\ (-1074 < e -> 2 ^ 52 <= Zpos m).
Proof.
  cbn [SpecFloat.valid_binary]. intro H. apply bounded_iff in H. destruct H as [Hc He].
  pose proof (digits2_pos_bounds m) as [Hlo Hhi].
  repeat split; try lia.
  - eapply Z.lt_le_trans; [exact Hhi|]. apply Z.pow_le_mono_r; lia.
  - intro Hn. replace 52 with (Zpos (digits2_pos m) - 1) by lia. exact Hlo.
Qed.

(** Adding a non-negative number to a positive one does not go below the
    positive one. *)
Lemma SFadd_ge_r x mc ec :
  SFnonneg x ->
  bounded prec emax mc ec = true ->
  valid_binary (SFadd prec emax x (S754_finite false mc ec)) = true ->
  SFleb (S754_finite false mc ec)
        (SFadd prec emax x (S754_finite false mc ec)) = true.
Proof.
  intros Hx HC.
  destruct x as [s|[]| |[] mx ex]; cbn [SFnonneg] in Hx; try tauto.
  - intros _. cbn [SFadd]. apply SFleb_finite_refl.
  - cbn [SFadd]. unfold cond_Zopp. rewrite <- Pos2Z.inj_add.
    cbn [binary_normalize]. unfold binary_round.
    set (ez := Z.min ex ec).
    set (a := fst (shl_align mx ex ez)).
    set (b := fst (shl_align mc ec ez)).
    destruct (shl_align_spec mc ec ez) as [_ Hb]. fold b in Hb.
    replace (Z.min ec ez) with ez in Hb by (unfold ez; lia).
    set (f := fexp prec emax (Zpos (digits2_pos (a + b)) + ez)).
    destruct (shl_align_spec (a + b) ez f) as [Hs Hv].
    destruct (shl_align (a + b) ez f) as [mz ez']. cbn [fst snd] in Hs, Hv.
    intro Hvalid. apply binary_round_aux_ge; try assumption; try lia.
    intros _. rewrite Hv, <- Hs, Pos2Z.inj_add, Hb.
    assert (Hez : ez <= ec) by (unfold ez; lia).
    assert (Hez' : ez' <= ez) by lia.
    replace (ec - ez') with ((ec - ez) + (ez - ez')) by lia.
    rewrite Z.pow_add_r by lia.
    assert (0 < 2 ^ (ez - ez')) by (apply Z.pow_pos_nonneg; lia).
    assert (0 < 2 ^ (ec - ez)) by (apply Z.pow_pos_nonneg; lia).
    nia.
Qed.

(** Multiplying by a positive constant keeps a lower bound whose product
    with the constant is a number of the format. *)
Lemma SFmul_ge ma ea mb eb mc ec y :
  bounded prec emax ma ea = true ->
  bounded prec emax mc ec = true ->
  ea + eb <= ec ->
  Zpos mc * 2 ^ (ec - ea - eb) = Zpos ma * Zpos mb ->
  valid_binary y = true ->
  SFleb (S754_finite false ma ea) y = true ->
  valid_binary (SFmul prec emax y (S754_finite false mb eb)) = true ->
  SFleb (S754_finite false mc ec)
        (SFmul prec emax y (S754_finite false mb eb)) = true.
Proof.
  intros HA HC Hexp Hprod Hy Hle.
  destruct (SFleb_finite_inv _ _ _ Hle) as [-> | (my & ey & -> & Hcmp)].
  - intros _. reflexivity.
  - cbn [SFmul xorb]. intro Hvalid.
    apply binary_round_aux_ge; try assumption; try lia.
    intro Hec. rewrite Pos2Z.inj_mul.
    destruct (valid_finite_facts _ _ _ Hy) as (Hey & Hmy & Hnorm).
    destruct (valid_finite_facts false ma ea HA) as (Hea & Hma & _).
    change (2 ^ 53) with 9007199254740992 in *.
    change (2 ^ 52) with 4503599627370496 in *.
    destruct Hcmp as [Hlt | [Heq Hm]].
    + specialize (Hnorm ltac:(lia)).
      replace (ec - ea - eb) with ((ec - (ey + eb)) + (ey - ea)) in Hprod by lia.
      rewrite Z.pow_add_r in Hprod by lia.
      assert (2 ^ 1 <= 2 ^ (ey - ea)) by (apply Z.pow_le_mono_r; lia).
      change (2 ^ 1) with 2 in *.
      assert (0 <= 2 ^ (ec - (ey + eb))) by (apply Z.pow_nonneg; lia).
      nia.
    + subst ey. replace (ec - (ea + eb)) with (ec - ea - eb) by lia.
      rewrite Hprod. nia.
Qed.

(** Division of a normal number by a normal constant: the quotient is
    computed with 53 extra bits. *)
Lemma SFdiv_core_normal m1 e1 mb eb :
  Zpos (digits2_pos m1) = 53 ->
  Zpos (digits2_pos mb) = 53 ->
  -1074 <= e1 - eb - 53 ->
  SFdiv_core_binary prec emax (Zpos m1) e1 (Zpos mb) eb =
  (Zpos m1 * 2 ^ 53 / Zpos mb, e1 - eb - 53,
   new_location (Zpos mb) (Zpos m1 * 2 ^ 53 mod Zpos mb)).
Proof.
  intros H1 H2 He. unfold SFdiv_core_binary. cbn [Zdigits2].
  rewrite H1, H2.
  replace (Z.min (fexp prec emax (53 + e1 - (53 + eb))) (e1 - eb))
    with (e1 - eb - 53)
    by (unfold fexp, SpecFloat.emin, prec, emax; lia).
  replace (e1 - eb - (e1 - eb - 53)) with 53 by lia.
  cbv iota beta.
  rewrite Z.shiftl_mul_pow2 by lia.
  unfold Z.div, Z.modulo.
  destruct (Z.div_eucl (Zpos m1 * 2 ^ 53) (Zpos mb)) as [q r]. reflexivity.
Qed.

(** Dividing by a positive normal constant keeps a lower bound whose
    quotient by the constant is a number of the format. *)
Lemma SFdiv_ge ma ea mb eb mc ec w :
  bounded prec emax ma ea = true ->
  bounded prec emax mc ec = true ->
  Zpos (digits2_pos mb) = 53 ->
  -1074 < ea ->
  -1074 <= ea - eb - 53 ->
  ec + eb <= ea ->
  Zpos mc * Zpos mb = Zpos ma * 2 ^ (ea - ec - eb) ->
  valid_binary w = true ->
  SFleb (S754_finite false ma ea) w = true ->
  valid_binary (SFdiv prec emax w (S754_finite false mb eb)) = true ->
  SFleb (S754_finite false mc ec)
        (SFdiv prec emax w (S754_finite false mb eb)) = true.
Proof.
  intros HA HC Hdb Hea Hunder Hexp Hprod Hw Hle.
  destruct (SFleb_finite_inv _ _ _ Hle) as [-> | (m1 & e1 & -> & Hcmp)].
  - intros _. reflexivity.
  - cbn [SFdiv xorb].
    destruct (valid_finite_facts _ _ _ Hw) as (He1 & Hm1 & Hnorm).
    destruct (valid_finite_facts false ma ea HA) as (_ & Hma & _).
    assert (He1' : ea <= e1) by lia.
    specialize (Hnorm ltac:(lia)).
    assert (Hd1 : Zpos (digits2_pos m1) = 53).
    { cbn [SpecFloat.valid_binary] in Hw. apply bounded_iff in Hw. lia. }
    rewrite SFdiv_core_normal by (try assumption; lia).
    pose proof (digits2_pos_bounds mb) as [Hmb_lo Hmb_hi].
    rewrite Hdb in Hmb_lo, Hmb_hi.
    change (2 ^ (53 - 1)) with 4503599627370496 in *.
    change (2 ^ 53) with 9007199254740992 in *.
    change (2 ^ 52) with 4503599627370496 in *.
    assert (Hq : 0 < Zpos m1 * 9007199254740992 / Zpos mb).
    { apply Z.div_str_pos. nia. }
    intro Hvalid. apply binary_round_aux_ge; try assumption.
    intro Hec. apply Z.div_le_lower_bound; [lia|].
    destruct Hcmp as [Hlt | [Heq Hm]].
    + assert (Hpow : 2 ^ (ea - ec - eb) * 2 ^ (ec - (e1 - eb - 53)) * 2 ^ (e1 - ea)
                     = 9007199254740992).
      { rewrite <- !Z.pow_add_r by lia.
        replace (ea - ec - eb + (ec - (e1 - eb - 53)) + (e1 - ea)) with 53 by lia.
        reflexivity. }
      assert (2 ^ 1 <= 2 ^ (e1 - ea)) by (apply Z.pow_le_mono_r; lia).
      change (2 ^ 1) with 2 in *.
      assert (0 < 2 ^ (ea - ec - eb)) by (apply Z.pow_pos_nonneg; lia).
      assert (0 < 2 ^ (ec - (e1 - eb - 53))) by (apply Z.pow_pos_nonneg; lia).
      set (P := 2 ^ (ea - ec - eb)) in *.
      set (Q := 2 ^ (ec - (e1 - eb - 53))) in *.
      set (R := 2 ^ (e1 - ea)) in *.
      assert (HX : P * Q <= 4503599627370496) by nia.
      replace (Zpos mb * (Zpos mc * Q)) with (Zpos ma * (P * Q))
        by (rewrite Z.mul_assoc, <- Hprod; ring).
      nia.
    + subst e1.
      assert (Hpow : 2 ^ (ea - ec - eb) * 2 ^ (ec - (ea - eb - 53))
                     = 9007199254740992).
      { rewrite <- !Z.pow_add_r by lia.
        replace (ea - ec - eb + (ec - (ea - eb - 53))) with 53 by lia.
        reflexivity. }
      set (P := 2 ^ (ea - ec - eb)) in *.
      set (Q := 2 ^ (ec - (ea - eb - 53))) in *.
      replace (Zpos mb * (Zpos mc * Q)) with (Zpos ma * (P * Q))
        by (rewrite Z.mul_assoc, <- Hprod; ring).
      rewrite Hpow. nia.
Qed.



Lemma digits2_pos_mono a b :
  Zpos a <= Zpos b -> Zpos (digits2_pos a) <= Zpos (digits2_pos b).
Proof.
  intro H. pose proof (digits2_pos_bounds a) as [Ha _].
  pose proof (digits2_pos_bounds b) as [_ Hb].
  assert (Hlt : 2 ^ (Zpos (digits2_pos a) - 1) < 2 ^ Zpos (digits2_pos b)) by lia.
  apply Z.pow_lt_mono_r_iff in Hlt; lia.
Qed.

(** The magnitude computed by [SFround] is within one half of the argument,
    a tie going up. *)
Lemma SFround_magnitude m k :
  0 < k ->
  (2 * ((Zpos m + 2 ^ (k - 1)) / 2 ^ k) - 1) * 2 ^ k <= 2 * Zpos m
    < (2 * ((Zpos m + 2 ^ (k - 1)) / 2 ^ k) + 1) * 2 ^ k.
Proof.
  intro Hk.
  assert (Hh : 0 < 2 ^ (k - 1)) by (apply Z.pow_pos_nonneg; lia).
  assert (H2 : 2 ^ k = 2 * 2 ^ (k - 1)).
  { replace k with (1 + (k - 1)) at 1 by lia. rewrite Z.pow_add_r by lia. reflexivity. }
  rewrite H2. set (h := 2 ^ (k - 1)) in *.
  pose proof (Z.div_mod (Zpos m + h) (2 * h) ltac:(lia)) as Hdm.
  pose proof (Z.mod_pos_bound (Zpos m + h) (2 * h) ltac:(lia)) as Hr.
  set (n := (Zpos m + h) / (2 * h)) in *. nia.
Qed.

Lemma SFround_small_digits m e :
  Zpos m < 2 ^ 53 -> e < 0 ->
  (Zpos m + 2 ^ (- e - 1)) / 2 ^ (- e) < 2 ^ 53.
Proof.
  intros Hm He.
  assert (Hh : 0 < 2 ^ (- e - 1)) by (apply Z.pow_pos_nonneg; lia).
  assert (H2 : 2 ^ (- e) = 2 * 2 ^ (- e - 1)).
  { replace (- e) with (1 + (- e - 1)) at 1 by lia. rewrite Z.pow_add_r by lia. reflexivity. }
  apply Z.div_lt_upper_bound; [lia|]. rewrite H2.
  change (2 ^ 53) with 9007199254740992 in *. nia.
Qed.

Lemma SFround_valid x : valid_binary x = true -> valid_binary (SFround x) = true.
Proof.
  destruct x as [s|s| |s m e]; try (intros; reflexivity).
  intro Hx. unfold SFround.
  destruct (0 <=? e) eqn:E; [exact Hx|]. apply Z.leb_gt in E.
  destruct (valid_finite_facts _ _ _ Hx) as (_ & Hm & _).
  pose proof (SFround_small_digits m e Hm E) as Hn.
  destruct ((Zpos m + 2 ^ (- e - 1)) / 2 ^ (- e)) as [|n|n]; try reflexivity.
  assert (Hd : Zpos (digits2_pos n) <= 53) by (apply digits2_pos_le_pow; lia).
  pose proof (shl_align_canonical n 0 Hd ltac:(lia)) as Hc.
  rewrite Z.add_0_r in Hc.
  destruct (shl_align_spec n 0 (fexp prec emax (Zpos (digits2_pos n)))) as [Hs _].
  destruct (shl_align n 0 (fexp prec emax (Zpos (digits2_pos n)))) as [m' e'].
  cbn [fst snd] in *. cbn [SpecFloat.valid_binary]. unfold bounded. rewrite Hc. cbn.
  apply Z.leb_le. lia.
Qed.

Lemma Prim2SF_round x : Prim2SF (round x) = SFround (Prim2SF x).
Proof.
  unfold round. apply Prim2SF_SF2Prim, SFround_valid, Prim2SF_valid.
Qed.

(** [SFround] rounds half away from zero. *)
Lemma SFround_half_away s m e :
  e < 0 ->
  exists n,
    SFint (SFround (S754_finite s m e)) = Some (cond_Zopp s n) /\
    (2 * n - 1) * 2 ^ (- e) <= 2 * Zpos m < (2 * n + 1) * 2 ^ (- e).
Proof.
  intro He. exists ((Zpos m + 2 ^ (- e - 1)) / 2 ^ (- e)).
  split; [|apply (SFround_magnitude m (- e)); lia].
  unfold SFround. destruct (Z.leb_spec 0 e) as [|_]; [lia|].
  assert (0 <= (Zpos m + 2 ^ (- e - 1)) / 2 ^ (- e)).
  { apply Z.div_pos; [|apply Z.pow_pos_nonneg; lia].
    assert (0 < 2 ^ (- e - 1)) by (apply Z.pow_pos_nonneg; lia). lia. }
  destruct ((Zpos m + 2 ^ (- e - 1)) / 2 ^ (- e)) as [|n|n]; [|clear H|lia].
  - destruct s; reflexivity.
  - destruct (shl_align_spec n 0 (fexp prec emax (Zpos (digits2_pos n)))) as [Hs Hv].
    destruct (shl_align n 0 (fexp prec emax (Zpos (digits2_pos n)))) as [m' e'].
    cbn [fst snd] in *. unfold SFint. rewrite Hv, Hs.
    set (f := fexp prec emax (Zpos (digits2_pos n))).
    destruct (Z.leb_spec 0 (Z.min 0 f)) as [Hf | Hf].
    + replace (Z.min 0 f) with 0 by lia. rewrite Z.sub_diag.
      change (2 ^ 0) with 1. rewrite !Z.mul_1_r. reflexivity.
    + replace (- Z.min 0 f) with (0 - Z.min 0 f) by lia.
      assert (0 < 2 ^ (0 - Z.min 0 f)) by (apply Z.pow_pos_nonneg; lia).
      rewrite Z.mod_mul, Z.div_mul by lia. reflexivity.
Qed.

(** Rounding to an integer does not go below an integer of the format. *)
Lemma SFround_ge N mc ec x :
  bounded prec emax mc ec = true ->
  -1074 < ec <= 0 ->
  Zpos mc = Zpos N * 2 ^ (- ec) ->
  Zpos (digits2_pos N) = 53 + ec ->
  valid_binary x = true ->
  SFleb (S754_finite false mc ec) x = true ->
  SFleb (S754_finite false mc ec) (SFround x) = true.
Proof.
  intros HC Hec HN HdN Hx Hle.
  destruct (SFleb_finite_inv _ _ _ Hle) as [-> | (m & e & -> & Hcmp)];
    [reflexivity|].
  unfold SFround. destruct (Z.leb_spec 0 e) as [|He]; [exact Hle|].
  destruct (valid_finite_facts _ _ _ Hx) as (_ & Hm & Hnorm).
  destruct (valid_finite_facts false mc ec HC) as (_ & Hmc & _).
  change (2 ^ 53) with 9007199254740992 in *.
  change (2 ^ 52) with 4503599627370496 in *.
  assert (Hh : 0 < 2 ^ (- e - 1)) by (apply Z.pow_pos_nonneg; lia).
  assert (H2 : 2 ^ (- e) = 2 * 2 ^ (- e - 1)).
  { replace (- e) with (1 + (- e - 1)) at 1 by lia. rewrite Z.pow_add_r by lia. reflexivity. }
  assert (HmN : Zpos N * 2 ^ (- e) <= Zpos m).
  { destruct Hcmp as [Hlt | [Heq Hmm]].
    - specialize (Hnorm ltac:(lia)).
      replace (- ec) with ((- e) + (e - ec)) in HN by lia.
      rewrite Z.pow_add_r in HN by lia.
      assert (2 ^ 1 <= 2 ^ (e - ec)) by (apply Z.pow_le_mono_r; lia).
      change (2 ^ 1) with 2 in *.
      assert (0 < 2 ^ (- e)) by lia.
      nia.
    - subst e. lia. }
  assert (HnN : Zpos N <= (Zpos m + 2 ^ (- e - 1)) / 2 ^ (- e)).
  { apply Z.div_le_lower_bound; lia. }
  destruct ((Zpos m + 2 ^ (- e - 1)) / 2 ^ (- e)) as [|n|n]; try lia.
  pose proof (digits2_pos_mono N n HnN) as Hd.
  destruct (shl_align_spec n 0 (fexp prec emax (Zpos (digits2_pos n)))) as [Hs Hv].
  destruct (shl_align n 0 (fexp prec emax (Zpos (digits2_pos n)))) as [m' e'].
  cbn [fst snd] in *.
  assert (Hf : ec <= e').
  { rewrite Hs. unfold fexp, SpecFloat.emin, prec, emax. lia. }
  unfold SFleb, SFcompare.
  destruct (Z.compare_spec ec e') as [Heq | Hlt | Hgt]; [|reflexivity|lia].
  apply pos_compare_cont_le. rewrite Hv, HN, <- Hs, <- Heq.
  replace (0 - ec) with (- ec) by lia.
  assert (0 < 2 ^ (- ec)) by (apply Z.pow_pos_nonneg; lia). nia.
Qed.

(** *** The conversion of an [int] *)

Lemma SFint_shl_align (p : positive) :
  Zpos (digits2_pos p) <= 53 ->
  SFint (S754_finite false
           (fst (shl_align p 0 (fexp prec emax (Zpos (digits2_pos p) + 0))))
           (snd (shl_align p 0 (fexp prec emax (Zpos (digits2_pos p) + 0)))))
  = Some (Zpos p).
Proof.
  intro Hd.
  destruct (shl_align_spec p 0 (fexp prec emax (Zpos (digits2_pos p) + 0)))
    as [He Hm].
  set (e' := snd _) in *. set (m' := fst _) in *.
  assert (Hf : fexp prec emax (Zpos (digits2_pos p) + 0)
               = Zpos (digits2_pos p) - 53).
  { unfold fexp, emin, prec, emax. lia. }
  rewrite Hf in He, Hm.
  assert (He' : e' = Zpos (digits2_pos p) - 53) by lia.
  replace (Z.min 0 (Zpos (digits2_pos p) - 53)) with e' in Hm by lia.
  unfold SFint.
  destruct (Z.leb_spec 0 e').
  - assert (e' = 0) by lia. replace (0 - e') with 0 in Hm by lia.
    rewrite Hm. replace e' with 0 by lia. cbn [cond_Zopp].
    f_equal. change (2 ^ 0) with 1. lia.
  - replace (0 - e') with (- e') in Hm by lia.
    rewrite Hm. rewrite Z.mod_mul, Z.eqb_refl by (apply Z.pow_nonzero; lia).
    rewrite Z.div_mul by (apply Z.pow_nonzero; lia). reflexivity.
Qed.

Lemma of_uint63_exact (p : positive) :
  Zpos p <= 2 ^ 31 ->
  SFint (Prim2SF (of_uint63 (of_Z (Zpos p)))) = Some (Zpos p).
Proof.
  intro Hp.
  assert (Hd : Zpos (digits2_pos p) <= 53).
  { pose proof (digits2_pos_le_pow p 32). lia. }
  rewrite of_uint63_spec.
  change (Uint63Axioms.to_Z (of_Z (Zpos p)))
    with (Uint63.to_Z (of_Z (Zpos p))).
  rewrite Uint63.of_Z_spec.
  assert (Hw : 2 ^ 31 < wB) by reflexivity.
  rewrite Z.mod_small by lia.
  cbn [binary_normalize].
  rewrite binary_round_exact; try lia.
  apply SFint_shl_align, Hd.
Qed.

Lemma SFint_opp (x : spec_float) (z : Z) :
  SFint x = Some z -> SFint (SFopp x) = Some (- z).
Proof.
  destruct x as [s|s| |s m e]; cbn; try discriminate.
  - intro H. injection H as <-. reflexivity.
  - destruct (0 <=? e).
    + intro H. injection H as <-. f_equal. destruct s; cbn; lia.
    + destruct (Z.pos m mod 2 ^ (- e) =? 0); [|discriminate].
      intro H. injection H as <-. f_equal. destruct s; cbn; lia.
Qed.

(** The conversion of an [int] to [double] is exact: every 32-bit integer
    is a binary64 number. *)
Lemma int_to_double_exact (q : Z) :
  - 2 ^ 31 <= q < 2 ^ 31 ->
  SFint (Prim2SF (int_to_double q)) = Some q.
Proof.
  intro Hq. unfold int_to_double.
  destruct (Z.ltb_spec q 0).
  - rewrite opp_spec.
    replace q with (- (- q)) at 2 by lia. apply SFint_opp.
    destruct q as [|p|p]; try lia.
    change (- Z.neg p) with (Zpos p). apply of_uint63_exact. lia.
  - destruct q as [|p|p]; try lia; [reflexivity|].
    apply of_uint63_exact. lia.
Qed.

End Binary64.

(* ================================================================= *)
(** ** Line totals *)

(** C1. The adjusted line total of an item is computed from its raw line
    total, the binary64 product of the unit price and the quantity (the
    quantity, an [int], is converted to binary64 without error), by the
    policy of its category, matched up to letter case: ELECTRONICS
    multiplies the line total by [1 + 0.10]; BOOKS multiplies it by
    [1 - 0.05] when [5 <= quantity] and leaves it unchanged when
    [quantity < 5]; every other category, the empty one too, leaves it
    unchanged. A phone at 200.00 in category "Electronics" comes to 220.00
    (and the binary64 error of the factor), five novels at 10.00 in "books"
    to 47.50, four to 40.00. *)
Theorem calculateItemTotal_policy (item : OrderItem) :
  calculateItemTotal item =
    (if iequals (category item) "ELECTRONICS" then
       (price item * int_to_double (quantity item) * (1 + 0.10))%float
     else if iequals (category item) "BOOKS" then
       if (5 <=? quantity item)%Z then
         (price item * int_to_double (quantity item) * (1 - 0.05))%float
       else (price item * int_to_double (quantity item))%float
     else (price item * int_to_double (quantity item))%float) /\
  (quantity_is_int item ->
   SFint (Prim2SF (int_to_double (quantity item))) = Some (quantity item)) /\
  calculateItemTotal (mkOrderItem "Phone" 200 1 "Electronics")
    = 220.00000000000003%float /\
  calculateItemTotal (mkOrderItem "Novel" 10 5 "books") = 47.5%float /\
  calculateItemTotal (mkOrderItem "Novel" 10 4 "Books") = 40%float /\
  calculateItemTotal (mkOrderItem "Pen" 9.99 2 "") = 19.98%float /\
  calculateItemTotal (mkOrderItem "Mouse Pad" 9.99 2 "ACCESSORIES")
    = 19.98%float.
Proof.
  split; [apply calculateItemTotal_eq|].
  split; [intro Hq; apply int_to_double_exact, Hq|].
  repeat split.
Qed.

Lemma calculateItemTotal_policy_witness :
  calculateItemTotal (mkOrderItem "Novel" 10 5 "BOOKS") = 47.5%float /\
  SFint (Prim2SF (int_to_double 5)) = Some 5%Z.
Proof.
  destruct (calculateItemTotal_policy (mkOrderItem "Novel" 10 5 "BOOKS"))
    as (Hpolicy & Hquantity & _).
  split; [exact Hpolicy | apply Hquantity].
  unfold quantity_is_int. cbn. lia.
Defined.

(* ================================================================= *)
(** ** Shipping *)

(** The shipping cost of a subtotal: 0 from 100.00 on, 10.00 below. *)
Lemma calculateShippingCost_cases (subtotal : float) :
  ((100 <=? subtotal)%float = true ->
     calculateShippingCost subtotal = 0%float) /\
  ((subtotal <? 100)%float = true ->
     calculateShippingCost subtotal = 10%float).
Proof.
  unfold calculateShippingCost, OrderConstants.FREE_SHIPPING_THRESHOLD,
    OrderConstants.STANDARD_SHIPPING_COST.
  split.
  - intros ->. reflexivity.
  - intro H. rewrite (ltb_not_leb _ _ H). reflexivity.
Qed.

Example shipping_just_below_threshold :
  calculateShippingCost 99.99 = 10%float.
Proof. reflexivity. Qed.

Example shipping_above_threshold :
  calculateShippingCost 250 = 0%float.
Proof. reflexivity. Qed.

(* ================================================================= *)
(** ** Validation *)

(** Closes [~ violates item] for an item given by its fields. *)
Ltac not_violating :=
  unfold violates; cbn;
  intros [H | [H | H]]; [lia | discriminate | discriminate].

Lemma validateItem_Normal (item : OrderItem) :
  validateItem item = Normal tt <-> ~ violates item.
Proof.
  unfold validateItem, violates.
  destruct (Z.leb_spec (quantity item) 0).
  { split; [discriminate | intro H'; exfalso; apply H'; auto]. }
  destruct (price item <? 0)%float.
  { split; [discriminate | intro H'; exfalso; apply H'; auto]. }
  destruct (productName item) as [|c rest]; cbn.
  { split; [discriminate | intro H'; exfalso; apply H'; auto]. }
  split; [|reflexivity].
  intros _ [Hq | [Hp | Hn]]; [lia | discriminate | discriminate].
Qed.

Lemma validateItem_cases (item : OrderItem) :
  validateItem item = Normal tt \/
  exists what, validateItem item = invalid_argument what.
Proof.
  destruct (validateItem item) as [[]|what]; [left | right; exists what];
    reflexivity.
Qed.

Lemma validateItem_throws (item : OrderItem) :
  (exists what, validateItem item = invalid_argument what) <-> violates item.
Proof.
  split.
  - intros [what Hw]. unfold validateItem, violates in *.
    destruct (Z.leb_spec (quantity item) 0); [now left|].
    destruct (price item <? 0)%float; [now (right; left)|].
    destruct (productName item); [now (right; right)|discriminate].
  - intro Hv. destruct (validateItem_cases item) as [Hn | Ht]; [|exact Ht].
    apply validateItem_Normal in Hn. contradiction.
Qed.

Lemma for_each_Normal (l : list OrderItem) :
  for_each validateItem l = Normal tt <->
  Forall (fun item => ~ violates item) l.
Proof.
  induction l as [|item rest IH]; cbn.
  - split; [constructor | reflexivity].
  - split.
    + intro H. destruct (validateItem item) as [[]|] eqn:E; [|discriminate].
      constructor; [apply validateItem_Normal, E | apply IH, H].
    + intro H. inversion H as [|? ? Hitem Hrest]; subst.
      apply validateItem_Normal in Hitem. rewrite Hitem. cbn.
      apply IH, Hrest.
Qed.

(** The loop stops at the first item that throws. *)
Lemma for_each_first_throw (pre post : list OrderItem) item what :
  Forall (fun i => ~ violates i) pre ->
  validateItem item = invalid_argument what ->
  for_each validateItem (pre ++ item :: post) = invalid_argument what.
Proof.
  intros Hpre Hitem. induction Hpre as [|i pre Hi _ IH]; cbn.
  - rewrite Hitem. reflexivity.
  - apply validateItem_Normal in Hi. rewrite Hi. cbn. exact IH.
Qed.

Lemma validateOrderItems_for_each (l : list OrderItem) :
  l <> [] -> validateOrderItems l = for_each validateItem l.
Proof. destruct l; [congruence | reflexivity]. Qed.

Lemma validateOrderItems_Normal (l : list OrderItem) :
  validateOrderItems l = Normal tt <-> validOrder l.
Proof.
  unfold validOrder. destruct l as [|item rest].
  - cbn. split; [discriminate | intros [H _]; congruence].
  - rewrite validateOrderItems_for_each, for_each_Normal by discriminate.
    split; [intro H; split; [discriminate | exact H] | intros [_ H]; exact H].
Qed.

Lemma calculateOrderTotal_throws (l : list OrderItem) what :
  calculateOrderTotal l = invalid_argument what <->
  validateOrderItems l = invalid_argument what.
Proof.
  unfold calculateOrderTotal.
  destruct (validateOrderItems l) as [[]|w]; cbn; split; congruence.
Qed.

Lemma violates_or_not (l : list OrderItem) :
  Exists violates l \/ Forall (fun item => ~ violates item) l.
Proof.
  induction l as [|item rest [IH | IH]].
  - right. constructor.
  - left. now apply Exists_cons_tl.
  - destruct (validateItem_cases item) as [Hn | Ht].
    + right. constructor; [apply validateItem_Normal, Hn | exact IH].
    + left. apply Exists_cons_hd, validateItem_throws, Ht.
Qed.

Lemma Exists_not_Forall_not (l : list OrderItem) :
  Exists violates l -> ~ Forall (fun item => ~ violates item) l.
Proof.
  intros HE HF. rewrite Forall_forall in HF. apply Exists_exists in HE.
  destruct HE as [item [Hin Hv]]. exact (HF item Hin Hv).
Qed.

(** C2. The calculator fails exactly when the order is empty or some item
    has a non-positive quantity, a negative price or an empty name; the
    empty order is reported with the reason
    "Order must contain at least one item" (the reason of the specification,
    with a capital first letter); a failure carries no total; and every
    order that meets the preconditions gets a total. *)
Theorem calculateOrderTotal_fails_iff (orderItems : list OrderItem) :
  ((exists what, calculateOrderTotal orderItems = invalid_argument what) <->
   orderItems = [] \/ Exists violates orderItems) /\
  (orderItems = [] ->
   calculateOrderTotal orderItems =
     invalid_argument "Order must contain at least one item" /\
   iequals "Order must contain at least one item"
           "order must contain at least one item" = true) /\
  (forall what, calculateOrderTotal orderItems = invalid_argument what ->
     forall total, calculateOrderTotal orderItems <> Normal total) /\
  (validOrder orderItems ->
   exists total, calculateOrderTotal orderItems = Normal total).
Proof.
  split; [split|split; [|split]].
  - intros [what Hw]. apply calculateOrderTotal_throws in Hw.
    destruct orderItems as [|item rest]; [now left | right].
    destruct (violates_or_not (item :: rest)) as [HE | HF]; [exact HE|].
    assert (Hv : validateOrderItems (item :: rest) = Normal tt).
    { apply validateOrderItems_Normal. split; [discriminate | exact HF]. }
    congruence.
  - intros [-> | HE].
    + eexists. reflexivity.
    + destruct (validateOrderItems orderItems) as [[]|what] eqn:E.
      * apply validateOrderItems_Normal in E. destruct E as [_ HF].
        exfalso. exact (Exists_not_Forall_not _ HE HF).
      * exists what. apply calculateOrderTotal_throws, E.
  - intros ->. split; reflexivity.
  - intros what Hw total Ht. congruence.
  - intro Hvalid. apply validateOrderItems_Normal in Hvalid.
    unfold calculateOrderTotal. rewrite Hvalid. cbn. eexists. reflexivity.
Qed.

Example empty_order_fails :
  calculateOrderTotal [] =
  invalid_argument "Order must contain at least one item".
Proof. reflexivity. Qed.

Example zero_quantity_fails :
  calculateOrderTotal [mkOrderItem "Pen" 1.5 0 "OFFICE"] =
  invalid_argument "Invalid quantity for item Pen".
Proof. reflexivity. Qed.

Example negative_price_fails :
  calculateOrderTotal [mkOrderItem "Pen" (-1.5) 2 "OFFICE"] =
  invalid_argument "Invalid price for item Pen".
Proof. reflexivity. Qed.

Example empty_name_fails :
  calculateOrderTotal [mkOrderItem "" 1.5 2 "OFFICE"] =
  invalid_argument "Product name cannot be empty".
Proof. reflexivity. Qed.

(** For a price that is a number, "negative" and "not at least zero" are
    the same test. *)
Lemma negative_iff_not_nonnegative (p : float) :
  is_number p = true ->
  (p <? 0)%float = true <-> (0 <=? p)%float = false.
Proof.
  unfold is_number.
  rewrite FloatAxioms.eqb_spec, FloatAxioms.ltb_spec, FloatAxioms.leb_spec.
  change (Prim2SF 0) with (S754_zero false).
  destruct (Prim2SF p) as [s|[]| |[] m e]; cbn; intuition congruence.
Qed.

(** With such a price, an item violates a precondition exactly when it does
    not have a positive quantity, a price of at least zero and a name. *)
Lemma violates_iff_precondition_fails (item : OrderItem) :
  is_number (price item) = true ->
  violates item <-> ~ meets_preconditions item.
Proof.
  intro Hnum. unfold violates, meets_preconditions.
  rewrite (negative_iff_not_nonnegative _ Hnum). split.
  - intros [Hq | [Hp | Hn]] (Hq' & Hp' & Hn'); [lia | congruence | contradiction].
  - intro H. destruct (Z.le_gt_cases (quantity item) 0) as [Hq | Hq]; [now left|].
    destruct (0 <=? price item)%float; [|now (right; left)].
    destruct (productName item); [now (right; right)|].
    exfalso. apply H. repeat split; [lia | discriminate].
Qed.

(** C5, refuted as stated: a price that is not a number does not meet
    [0 <= price], yet the check [price < 0] lets it pass. The one-item order
    of a pen at such a price is not rejected (its total is not a number
    either), and when an item with quantity 0 follows, the failure names
    that second item, not the pen. *)
Theorem nan_price_is_not_rejected :
  (0 <=? price (mkOrderItem "Pen" nan 1 "OFFICE"))%float = false /\
  ~ meets_preconditions (mkOrderItem "Pen" nan 1 "OFFICE") /\
  calculateOrderTotal [mkOrderItem "Pen" nan 1 "OFFICE"] = Normal nan /\
  calculateOrderTotal
    [mkOrderItem "Pen" nan 1 "OFFICE"; mkOrderItem "Ink" 3 0 "OFFICE"]
    = invalid_argument "Invalid quantity for item Ink".
Proof.
  repeat split. intros (_ & H & _). discriminate H.
Qed.

(** C5, amended. In a non-empty order with an item whose quantity is not
    positive, whose price is negative or whose name is empty, the calculator
    fails for the first such item in input order, whatever follows it. The
    message is that of the first check the item fails: "Invalid quantity
    for item " or "Invalid price for item " followed by the item's name, or
    "Product name cannot be empty", which is given only to an item with a
    positive quantity, a price that is not negative and no name. For a price
    that is a number these are the items that do not have a positive
    quantity, a price of at least zero and a name. *)
Theorem calculateOrderTotal_first_violation
  (pre post : list OrderItem) (item : OrderItem) :
  Forall (fun i => ~ violates i) pre ->
  violates item ->
  calculateOrderTotal (pre ++ item :: post) =
    invalid_argument
      (if (quantity item <=? 0)%Z then
         "Invalid quantity for item " ++ productName item
       else if (price item <? 0)%float then
         "Invalid price for item " ++ productName item
       else "Product name cannot be empty")%string /\
  ((0 < quantity item)%Z -> (price item <? 0)%float = false ->
   productName item = EmptyString) /\
  (is_number (price item) = true ->
   violates item <-> ~ meets_preconditions item).
Proof.
  intros Hpre Hv. split; [|split].
  - apply calculateOrderTotal_throws.
    rewrite validateOrderItems_for_each by (destruct pre; discriminate).
    apply for_each_first_throw; [exact Hpre|].
    unfold validateItem.
    destruct (quantity item <=? 0)%Z eqn:Eq; [reflexivity|].
    destruct (price item <? 0)%float eqn:Ep; [reflexivity|].
    destruct Hv as [Hq | [Hp | Hn]];
      [apply Z.leb_gt in Eq; lia | congruence |].
    rewrite Hn. reflexivity.
  - intros Hq Hp. destruct Hv as [Hq' | [Hp' | Hn]];
      [lia | congruence | exact Hn].
  - apply violates_iff_precondition_fails.
Qed.

Lemma calculateOrderTotal_first_violation_witness :
  calculateOrderTotal
    ([mkOrderItem "Pen" 1.5 2 "OFFICE"]
     ++ mkOrderItem "Ink" 3 0 "OFFICE"
     :: [mkOrderItem "Nib" (-2) 1 "OFFICE"; mkOrderItem "" 1 (-1) ""])
  = invalid_argument "Invalid quantity for item Ink".
Proof.
  refine (proj1 (calculateOrderTotal_first_violation
           [mkOrderItem "Pen" 1.5 2 "OFFICE"]
           [mkOrderItem "Nib" (-2) 1 "OFFICE"; mkOrderItem "" 1 (-1) ""]
           (mkOrderItem "Ink" 3 0 "OFFICE") _ _)).
  - constructor; [|constructor]. not_violating.
  - left. cbn. lia.
Defined.

(* ================================================================= *)
(** ** Worked orders *)

(** The order of the demonstration in [main]. *)
Example demoOrder_total : calculateOrderTotal demoOrder = Normal 1290.91%float.
Proof. vm_compute. reflexivity. Qed.

(** C7. An order of one BOOKS item with unit price 10.00 and quantity 5
    totals exactly 57.50: the line total is 50.00, the bulk discount makes
    it 47.50, which is below the free-shipping threshold, so 10.00 is
    added. *)
Theorem books_bulk_order_total (name : string) :
  name <> EmptyString ->
  getTotalPrice (mkOrderItem name 10.00 5 "BOOKS") = 50.00%float /\
  calculateItemTotal (mkOrderItem name 10.00 5 "BOOKS") = 47.50%float /\
  calculateSubtotal [mkOrderItem name 10.00 5 "BOOKS"] = 47.50%float /\
  (47.50 <? 100.00)%float = true /\
  calculateShippingCost 47.50 = 10.00%float /\
  calculateOrderTotal [mkOrderItem name 10.00 5 "BOOKS"] = Normal 57.50%float.
Proof.
  intro Hname. destruct name as [|c rest]; [congruence|].
  repeat split.
Qed.

Lemma books_bulk_order_total_witness :
  calculateOrderTotal [mkOrderItem "Clean Code" 10.00 5 "BOOKS"]
  = Normal 57.50%float.
Proof.
  apply (books_bulk_order_total "Clean Code"). discriminate.
Defined.

(** C9. The bulk discount is decided line by line, from the quantity of the
    line alone: two BOOKS lines with fewer than 5 copies each are both
    charged their plain line total wherever they stand in the order, also
    when together they reach the threshold, whereas a single BOOKS line with
    at least 5 copies is discounted. With 3 + 3 copies at 10.00 the order
    costs 70.00; as one line of 6 copies it costs 67.00. *)
Theorem book_discount_is_per_line (a b : OrderItem) :
  iequals (category a) "BOOKS" = true ->
  iequals (category b) "BOOKS" = true ->
  (quantity a < 5)%Z ->
  (quantity b < 5)%Z ->
  calculateItemTotal a = getTotalPrice a /\
  calculateItemTotal b = getTotalPrice b /\
  (forall pre mid post : list OrderItem,
     calculateSubtotal (pre ++ a :: mid ++ b :: post) =
     fold_left (fun s item => (s + calculateItemTotal item)%float) post
       (fold_left (fun s item => (s + calculateItemTotal item)%float) mid
          (calculateSubtotal pre + getTotalPrice a) + getTotalPrice b)%float) /\
  (forall single : OrderItem,
     iequals (category single) "BOOKS" = true ->
     (5 <= quantity single)%Z ->
     calculateItemTotal single = (getTotalPrice single * (1 - 0.05))%float) /\
  calculateOrderTotal
    [mkOrderItem "Novel" 10 3 "BOOKS"; mkOrderItem "Atlas" 10 3 "BOOKS"]
    = Normal 70%float /\
  calculateOrderTotal [mkOrderItem "Novel" 10 6 "BOOKS"] = Normal 67%float.
Proof.
  intros Ha Hb Hqa Hqb.
  assert (Hplain : forall item, iequals (category item) "BOOKS" = true ->
            (quantity item < 5)%Z ->
            calculateItemTotal item = getTotalPrice item).
  { intros item Hc Hq. unfold calculateItemTotal. cbv zeta.
    rewrite (iequals_upper _ "BOOKS" eq_refl Hc). cbn.
    unfold applyBookDiscount, OrderConstants.BOOK_BULK_QUANTITY_THRESHOLD.
    destruct (Z.leb_spec 5 (quantity item)); [lia | reflexivity]. }
  split; [exact (Hplain a Ha Hqa)|].
  split; [exact (Hplain b Hb Hqb)|].
  split; [|split; [|split; reflexivity]].
  - intros pre mid post. unfold calculateSubtotal.
    rewrite fold_left_app. cbn [fold_left].
    rewrite fold_left_app. cbn [fold_left].
    rewrite (Hplain a Ha Hqa), (Hplain b Hb Hqb). reflexivity.
  - intros single Hc Hq. unfold calculateItemTotal. cbv zeta.
    rewrite (iequals_upper _ "BOOKS" eq_refl Hc). cbn.
    unfold applyBookDiscount, OrderConstants.BOOK_BULK_QUANTITY_THRESHOLD.
    destruct (Z.leb_spec 5 (quantity single)); [reflexivity | lia].
Qed.

Lemma book_discount_is_per_line_witness :
  calculateItemTotal (mkOrderItem "Novel" 10 3 "Books") = 30%float /\
  calculateItemTotal (mkOrderItem "Atlas" 10 3 "books") = 30%float.
Proof.
  destruct (book_discount_is_per_line
              (mkOrderItem "Novel" 10 3 "Books")
              (mkOrderItem "Atlas" 10 3 "books")
              eq_refl eq_refl eq_refl eq_refl) as [Ha [Hb _]].
  split; [exact Ha | exact Hb].
Defined.

(** C10. Adding an item can lower the total: an order of one item at 95.00
    costs 105.00 with shipping, and with a second item at 5.00 the subtotal
    reaches 100.00, shipping is free, and the order costs 100.00. *)
Theorem total_not_monotone :
  exists (order : list OrderItem) (extra : OrderItem) (before after : float),
    validOrder order /\
    ~ violates extra /\
    (0 <? price extra)%float = true /\
    calculateOrderTotal order = Normal before /\
    calculateOrderTotal (order ++ [extra]) = Normal after /\
    (after <? before)%float = true /\
    calculateShippingCost (calculateSubtotal order) = 10%float /\
    calculateShippingCost (calculateSubtotal (order ++ [extra])) = 0%float.
Proof.
  exists [mkOrderItem "Desk Lamp" 95 1 "HOME"],
         (mkOrderItem "Notebook" 5 1 "STATIONERY"),
         105%float, 100%float.
  repeat split; try discriminate.
  - constructor; [|constructor]. not_violating.
  - not_violating.
Qed.

(* ================================================================= *)
(** ** Totals of orders that meet the preconditions *)

Lemma Prim2SF_10 : Prim2SF 10 = S754_finite false 5629499534213120 (-49).
Proof. reflexivity. Qed.

Lemma Prim2SF_100 : Prim2SF 100 = S754_finite false 7036874417766400 (-46).
Proof. reflexivity. Qed.

Lemma Prim2SF_1000 : Prim2SF 1000 = S754_finite false 8796093022208000 (-43).
Proof. reflexivity. Qed.

Lemma leb_zero_nonneg (x : float) :
  (0 <=? x)%float = true -> SFnonneg (Prim2SF x).
Proof.
  rewrite FloatAxioms.leb_spec. change (Prim2SF 0) with (S754_zero false).
  apply SFleb_zero_nonneg.
Qed.

Lemma mul_nonneg (x c : float) m e :
  Prim2SF c = S754_finite false m e ->
  SFnonneg (Prim2SF x) -> SFnonneg (Prim2SF (x * c)).
Proof.
  intros Hc Hx. rewrite mul_spec, Hc. apply SFmul_nonneg, Hx.
Qed.

Lemma add_nonneg (x y : float) :
  SFnonneg (Prim2SF x) -> SFnonneg (Prim2SF y) -> SFnonneg (Prim2SF (x + y)).
Proof.
  intros Hx Hy. rewrite add_spec. apply SFadd_nonneg; assumption.
Qed.

Lemma int_to_double_positive (q : Z) :
  (0 < q < 2 ^ 31)%Z ->
  exists m e, Prim2SF (int_to_double q) = S754_finite false m e.
Proof.
  intro Hq. unfold int_to_double.
  destruct (Z.ltb_spec q 0); [lia|]. apply int_to_double_finite, Hq.
Qed.

Lemma getTotalPrice_nonneg (item : OrderItem) :
  meets_preconditions item -> quantity_is_int item ->
  SFnonneg (Prim2SF (getTotalPrice item)).
Proof.
  intros (Hq & Hp & _) Hint. unfold getTotalPrice.
  destruct (int_to_double_positive (quantity item)) as (m & e & Hm).
  { unfold quantity_is_int in Hint. lia. }
  apply (mul_nonneg _ _ m e Hm), leb_zero_nonneg, Hp.
Qed.

Lemma calculateItemTotal_nonneg (item : OrderItem) :
  meets_preconditions item -> quantity_is_int item ->
  SFnonneg (Prim2SF (calculateItemTotal item)).
Proof.
  intros Hpre Hint. pose proof (getTotalPrice_nonneg item Hpre Hint) as Hbase.
  unfold calculateItemTotal. cbv zeta.
  destruct (String.eqb _ OrderConstants.ELECTRONICS_CATEGORY).
  - unfold applyElectronicsTax. eapply mul_nonneg; [reflexivity | exact Hbase].
  - destruct (String.eqb _ OrderConstants.BOOKS_CATEGORY); [|exact Hbase].
    unfold applyBookDiscount.
    destruct (_ <=? _)%Z; [|exact Hbase].
    eapply mul_nonneg; [reflexivity | exact Hbase].
Qed.

Lemma calculateSubtotal_nonneg (orderItems : list OrderItem) :
  Forall meets_preconditions orderItems ->
  Forall quantity_is_int orderItems ->
  SFnonneg (Prim2SF (calculateSubtotal orderItems)).
Proof.
  unfold calculateSubtotal.
  assert (Hzero : SFnonneg (Prim2SF 0)) by exact I.
  revert Hzero. generalize 0%float as acc.
  induction orderItems as [|item rest IH]; intros acc Hacc Hpre Hint; cbn.
  - exact Hacc.
  - inversion Hpre; inversion Hint; subst.
    apply IH; try assumption.
    apply add_nonneg; [exact Hacc | now apply calculateItemTotal_nonneg].
Qed.

Lemma meets_preconditions_not_violates (item : OrderItem) :
  meets_preconditions item -> ~ violates item.
Proof.
  intros (Hq & Hp & Hn) [Hq' | [Hp' | Hn']]; [lia | | contradiction].
  apply leb_not_ltb in Hp. congruence.
Qed.

(** The subtotal with its shipping cost is at least 10. *)
Lemma with_shipping_ge_10 (subtotal : float) :
  SFnonneg (Prim2SF subtotal) ->
  (10 <=? subtotal + calculateShippingCost subtotal)%float = true.
Proof.
  intro Hs. unfold calculateShippingCost,
    OrderConstants.FREE_SHIPPING_THRESHOLD,
    OrderConstants.STANDARD_SHIPPING_COST.
  destruct (100 <=? subtotal)%float eqn:E.
  - rewrite FloatAxioms.leb_spec, Prim2SF_100 in E.
    rewrite FloatAxioms.leb_spec, add_spec, Prim2SF_10.
    change (Prim2SF 0) with (S754_zero false).
    destruct (SFleb_finite_inv _ _ _ E) as [-> | (m & e & -> & Hcmp)];
      [reflexivity|].
    cbn [SF64add SFadd]. unfold SFleb, SFcompare.
    destruct (Z.compare_spec (-49) e) as [H | H | H]; try reflexivity; lia.
  - pose proof (Prim2SF_valid (subtotal + 10)) as Hvalid.
    rewrite FloatAxioms.leb_spec, add_spec, Prim2SF_10.
    rewrite add_spec, Prim2SF_10 in Hvalid.
    apply SFadd_ge_r; [exact Hs | reflexivity | exact Hvalid].
Qed.

(** Rounding an amount of at least 10 to cents gives at least 10. *)
Lemma round_to_cents_ge_10 (amount : float) :
  (10 <=? amount)%float = true ->
  (10 <=? round (amount * 100) / 100)%float = true.
Proof.
  intro H10. rewrite FloatAxioms.leb_spec, Prim2SF_10 in H10.
  assert (H1000 : SFleb (S754_finite false 8796093022208000 (-43))
                        (Prim2SF (amount * 100)) = true).
  { pose proof (Prim2SF_valid (amount * 100)) as Hvalid.
    rewrite mul_spec, Prim2SF_100 in *.
    apply (SFmul_ge 5629499534213120 (-49)); try reflexivity;
      try assumption; try lia.
    apply Prim2SF_valid. }
  assert (Hround : SFleb (S754_finite false 8796093022208000 (-43))
                         (Prim2SF (round (amount * 100))) = true).
  { rewrite Prim2SF_round.
    apply (SFround_ge 1000); try reflexivity; try assumption; try lia.
    apply Prim2SF_valid. }
  pose proof (Prim2SF_valid (round (amount * 100) / 100)) as Hvalid.
  rewrite FloatAxioms.leb_spec, div_spec, Prim2SF_10, Prim2SF_100.
  rewrite div_spec, Prim2SF_100 in Hvalid.
  apply (SFdiv_ge 8796093022208000 (-43)); try reflexivity;
    try assumption; try lia.
  apply Prim2SF_valid.
Qed.

Lemma leb_10_leb_0 (x : float) :
  (10 <=? x)%float = true -> (0 <=? x)%float = true.
Proof.
  rewrite !FloatAxioms.leb_spec, Prim2SF_10.
  change (Prim2SF 0) with (S754_zero false). intro H.
  destruct (SFleb_finite_inv _ _ _ H) as [-> | (m & e & -> & _)]; reflexivity.
Qed.

(** C8. For every valid order (non-empty; every item with a positive
    quantity, a price of at least zero and a name) the calculator returns a
    total that is non-negative and, more precisely, at least 10.00; no total
    lies strictly between 0 and 10.00. *)
Theorem valid_order_total_at_least_shipping (orderItems : list OrderItem) :
  orderItems <> [] ->
  Forall meets_preconditions orderItems ->
  Forall quantity_is_int orderItems ->
  exists total,
    calculateOrderTotal orderItems = Normal total /\
    (0 <=? total)%float = true /\
    (10 <=? total)%float = true /\
    ((0 <? total) && (total <? 10))%float = false.
Proof.
  intros Hne Hpre Hint.
  assert (Hvalid : validateOrderItems orderItems = Normal tt).
  { apply validateOrderItems_Normal. split; [exact Hne|].
    eapply Forall_impl; [|exact Hpre].
    intros item. apply meets_preconditions_not_violates. }
  unfold calculateOrderTotal. rewrite Hvalid. cbn [bind].
  eexists. split; [reflexivity|].
  pose proof (calculateSubtotal_nonneg orderItems Hpre Hint) as Hs.
  pose proof (round_to_cents_ge_10 _ (with_shipping_ge_10 _ Hs)) as H10.
  split; [exact (leb_10_leb_0 _ H10)|].
  split; [exact H10|].
  rewrite (leb_not_ltb _ _ H10). apply andb_false_r.
Qed.

Lemma valid_order_total_at_least_shipping_witness :
  exists total,
    calculateOrderTotal [mkOrderItem "Eraser" 0.01 1 "OFFICE"] = Normal total /\
    (0 <=? total)%float = true /\
    (10 <=? total)%float = true /\
    ((0 <? total) && (total <? 10))%float = false.
Proof.
  apply (valid_order_total_at_least_shipping
           [mkOrderItem "Eraser" 0.01 1 "OFFICE"]).
  - discriminate.
  - constructor; [|constructor].
    unfold meets_preconditions; cbn. repeat split; try lia; discriminate.
  - constructor; [|constructor]. unfold quantity_is_int; cbn. lia.
Defined.

(* ================================================================= *)
(** ** The order of the items *)

Lemma SFadd_comm (x y : spec_float) :
  SFadd prec emax x y = SFadd prec emax y x.
Proof.
  destruct x as [sx|sx| |sx mx ex], y as [sy|sy| |sy my ey];
    try destruct sx; try destruct sy; try reflexivity;
    cbn [SFadd]; rewrite (Z.min_comm ey ex), Z.add_comm; reflexivity.
Qed.

(** The first two additions of the running sum can be exchanged. *)
Lemma SFadd_zero_swap (a b : spec_float) :
  SFadd prec emax (SFadd prec emax (S754_zero false) a) b =
  SFadd prec emax (SFadd prec emax (S754_zero false) b) a.
Proof.
  destruct a as [sa|sa| |sa ma ea], b as [sb|sb| |sb mb eb];
    try destruct sa; try destruct sb; try reflexivity;
    cbn [SFadd]; rewrite (Z.min_comm eb ea), Z.add_comm; reflexivity.
Qed.

Lemma add_zero_swap (a b : float) :
  (0 + a + b)%float = (0 + b + a)%float.
Proof.
  apply Prim2SF_inj. rewrite !add_spec.
  change (Prim2SF 0) with (S754_zero false). apply SFadd_zero_swap.
Qed.

Lemma validOrder_Permutation (l l' : list OrderItem) :
  Permutation l l' -> validOrder l -> validOrder l'.
Proof.
  intros Hperm [Hne Hall]. split.
  - intro Hnil. subst l'. apply Permutation_sym, Permutation_nil in Hperm.
    contradiction.
  - rewrite Forall_forall in *. intros item Hin.
    apply Hall. eapply Permutation_in; [apply Permutation_sym|]; eassumption.
Qed.

Lemma calculateOrderTotal_valid (l : list OrderItem) :
  validOrder l ->
  calculateOrderTotal l =
  Normal (round ((calculateSubtotal l
                  + calculateShippingCost (calculateSubtotal l)) * 100)
          / 100)%float.
Proof.
  intro Hv. apply validateOrderItems_Normal in Hv.
  unfold calculateOrderTotal. rewrite Hv. reflexivity.
Qed.

(** C6, refuted as stated: the same three items, valid in both orders, cost
    100.00 in one order and 110.00 in the other. The running sum of
    10.00, 29.99, 60.01 is 100.0 in binary64; the running sum of
    10.00, 60.01, 29.99 is 99.99999999999999, which is below the
    free-shipping threshold. *)
Lemma total_depends_on_item_order :
  Permutation [scarf; gloves; boots] [scarf; boots; gloves] /\
  validOrder [scarf; gloves; boots] /\
  validOrder [scarf; boots; gloves] /\
  calculateSubtotal [scarf; gloves; boots] = 100%float /\
  calculateSubtotal [scarf; boots; gloves] = 99.999999999999986%float /\
  calculateOrderTotal [scarf; gloves; boots] = Normal 100%float /\
  calculateOrderTotal [scarf; boots; gloves] = Normal 110%float /\
  calculateOrderTotal [scarf; gloves; boots] <>
  calculateOrderTotal [scarf; boots; gloves].
Proof.
  assert (Hperm : Permutation [scarf; gloves; boots] [scarf; boots; gloves]).
  { apply perm_skip, perm_swap. }
  assert (Hv : validOrder [scarf; gloves; boots]).
  { split; [discriminate|]. repeat constructor; not_violating. }
  repeat split; try reflexivity; try discriminate.
  - exact Hperm.
  - exact (proj2 Hv).
  - exact (proj2 (validOrder_Permutation _ _ Hperm Hv)).
Qed.

(** C6, amended. Validation does not depend on the order of the items: a
    permutation of a valid order is valid and gets a total. Two valid orders
    with the same binary64 subtotal get the same total; this is the case
    when the first two items of an order are exchanged, since one binary64
    addition is commutative, and so for every permutation of an order of at
    most two items. *)
Theorem total_under_reordering (l l' : list OrderItem) :
  validOrder l ->
  Permutation l l' ->
  validOrder l' /\
  (exists total total',
     calculateOrderTotal l = Normal total /\
     calculateOrderTotal l' = Normal total') /\
  (calculateSubtotal l = calculateSubtotal l' ->
   calculateOrderTotal l = calculateOrderTotal l') /\
  (forall a b rest, l = a :: b :: rest -> l' = b :: a :: rest ->
     calculateOrderTotal l = calculateOrderTotal l') /\
  ((List.length l <= 2)%nat ->
   calculateOrderTotal l = calculateOrderTotal l').
Proof.
  intros Hv Hperm.
  pose proof (validOrder_Permutation _ _ Hperm Hv) as Hv'.
  split; [exact Hv'|].
  rewrite (calculateOrderTotal_valid l Hv), (calculateOrderTotal_valid l' Hv').
  split; [eexists; eexists; split; reflexivity|].
  assert (Hswap : forall a b rest, l = a :: b :: rest -> l' = b :: a :: rest ->
            calculateSubtotal l = calculateSubtotal l').
  { intros a b rest -> ->. unfold calculateSubtotal. cbn [fold_left].
    rewrite (add_zero_swap (calculateItemTotal a) (calculateItemTotal b)).
    reflexivity. }
  split; [intros ->; reflexivity|].
  split; [intros a b rest Hl Hl'; rewrite (Hswap a b rest Hl Hl'); reflexivity|].
  intro Hlen. destruct l as [|a [|b [|c rest]]]; cbn in Hlen; try lia.
  - destruct Hv as [Hne _]. congruence.
  - apply Permutation_length_1_inv in Hperm. subst l'. reflexivity.
  - apply Permutation_length_2_inv in Hperm. destruct Hperm as [-> | ->];
      [reflexivity|].
    rewrite (Hswap a b [] eq_refl eq_refl). reflexivity.
Qed.

Lemma total_under_reordering_witness :
  calculateOrderTotal [gloves; scarf; boots] =
  calculateOrderTotal [scarf; gloves; boots].
Proof.
  assert (Hv : validOrder [gloves; scarf; boots]).
  { split; [discriminate|]. repeat constructor; not_violating. }
  assert (Hperm : Permutation [gloves; scarf; boots] [scarf; gloves; boots])
    by apply perm_swap.
  destruct (total_under_reordering _ _ Hv Hperm) as (_ & _ & _ & Hswap & _).
  exact (Hswap gloves scarf [boots] eq_refl eq_refl).
Defined.

(* ================================================================= *)
(** ** Where rounding happens *)

Lemma add_comm (x y : float) : (x + y)%float = (y + x)%float.
Proof.
  apply Prim2SF_inj. rewrite !add_spec. apply SFadd_comm.
Qed.

(** The subtotal written out on the prices, quantities and categories of
    the items: a left-to-right sum of the adjusted line totals. *)
Lemma calculateSubtotal_eq (l : list OrderItem) :
  calculateSubtotal l =
  fold_left
    (fun sum item =>
       (sum +
        (if iequals (category item) "ELECTRONICS" then
           price item * int_to_double (quantity item) * (1 + 0.10)
         else if iequals (category item) "BOOKS" then
           if (5 <=? quantity item)%Z then
             price item * int_to_double (quantity item) * (1 - 0.05)
           else price item * int_to_double (quantity item)
         else price item * int_to_double (quantity item)))%float)
    l 0%float.
Proof.
  unfold calculateSubtotal. generalize 0%float as acc.
  induction l as [|item rest IH]; intro acc; cbn [fold_left];
    [reflexivity|].
  rewrite calculateItemTotal_eq. apply IH.
Qed.

(** [round] leaves an integer as it is, and otherwise goes to the nearer of
    the two neighbouring integers, to the one away from zero at a tie: the
    magnitude [n] of the result satisfies [n - 1/2 <= |x| < n + 1/2]. *)
Lemma round_half_away_from_zero (x : float) s m e :
  Prim2SF x = S754_finite s m e ->
  ((0 <= e)%Z -> round x = x) /\
  ((e < 0)%Z ->
   exists n : Z,
     SFint (Prim2SF (round x)) = Some (cond_Zopp s n) /\
     ((2 * n - 1) * 2 ^ (- e) <= 2 * Zpos m < (2 * n + 1) * 2 ^ (- e))%Z).
Proof.
  intro Hx. split.
  - intro He. unfold round. rewrite Hx. cbn [SFround].
    destruct (Z.leb_spec 0 e); [|lia].
    rewrite <- Hx. apply SF2Prim_Prim2SF.
  - intro He. rewrite Prim2SF_round, Hx. apply SFround_half_away, He.
Qed.

(* ================================================================= *)
(** ** The shipping cost in the total *)

(** C3. For every valid order, the shipping cost that [calculateOrderTotal]
    adds to the subtotal of the adjusted line totals is 0 when the subtotal
    is at least 100.00 and the flat 10.00 when it is below 100.00; the
    subtotal 100.00 itself ships free. A desk at 100.00 costs 100.00, four
    novels at 25.00 cost 100.00, and a desk at 99.99 costs 109.99. *)
Theorem calculateShippingCost_threshold (orderItems : list OrderItem) :
  validOrder orderItems ->
  ((100 <=? calculateSubtotal orderItems)%float = true ->
   calculateShippingCost (calculateSubtotal orderItems) = 0%float /\
   calculateOrderTotal orderItems =
     Normal (round ((calculateSubtotal orderItems + 0) * 100) / 100)%float) /\
  ((calculateSubtotal orderItems <? 100)%float = true ->
   calculateShippingCost (calculateSubtotal orderItems) = 10%float /\
   calculateOrderTotal orderItems =
     Normal (round ((calculateSubtotal orderItems + 10) * 100) / 100)%float) /\
  (forall subtotal : float,
     ((100 <=? subtotal)%float = true ->
        calculateShippingCost subtotal = 0%float) /\
     ((subtotal <? 100)%float = true ->
        calculateShippingCost subtotal = 10%float)) /\
  calculateShippingCost 100 = 0%float /\
  calculateOrderTotal [mkOrderItem "Desk" 100 1 "FURNITURE"]
    = Normal 100%float /\
  calculateOrderTotal [mkOrderItem "Novel" 25 4 "BOOKS"]
    = Normal 100%float /\
  calculateOrderTotal [mkOrderItem "Desk" 99.99 1 "FURNITURE"]
    = Normal 109.99%float.
Proof.
  intro Hv. pose proof (calculateOrderTotal_valid _ Hv) as Ht.
  split; [|split].
  - intro H. apply calculateShippingCost_cases in H.
    rewrite H in Ht. split; [exact H | exact Ht].
  - intro H. apply calculateShippingCost_cases in H.
    rewrite H in Ht. split; [exact H | exact Ht].
  - split; [exact calculateShippingCost_cases|]. repeat split.
Qed.

Lemma calculateShippingCost_threshold_witness :
  calculateOrderTotal [mkOrderItem "Desk" 100 1 "FURNITURE"]
    = Normal 100%float /\
  calculateOrderTotal [mkOrderItem "Desk" 99.99 1 "FURNITURE"]
    = Normal 109.99%float.
Proof.
  split.
  - assert (Hv : validOrder [mkOrderItem "Desk" 100 1 "FURNITURE"]).
    { split; [discriminate|]. repeat constructor; not_violating. }
    exact (proj2 (proj1 (calculateShippingCost_threshold _ Hv) eq_refl)).
  - assert (Hv : validOrder [mkOrderItem "Desk" 99.99 1 "FURNITURE"]).
    { split; [discriminate|]. repeat constructor; not_violating. }
    exact (proj2 (proj1 (proj2 (calculateShippingCost_threshold _ Hv))
                    eq_refl)).
Defined.

(* ================================================================= *)
(** ** The rounding of the total *)

(** C4, refuted as stated: the total is not always the sum of subtotal and
    shipping rounded to two decimals, and a line total is not always the
    exact product. Five novels at 0.14 in category BOOKS give a binary64
    sum of subtotal and shipping just below 10.665, whose nearest number of
    cents is 1066; the calculator returns 10.67, since the binary64 product
    of that sum and 100 is 1066.5. Three teas at 0.1 have the line total
    0.30000000000000004, which is not three times the binary64 number
    0.1. *)
Theorem total_differs_from_decimal_rounding :
  validOrder [mkOrderItem "Novel" 0.14 5 "BOOKS"] /\
  nearest_cents
    (Prim2SF (calculateSubtotal [mkOrderItem "Novel" 0.14 5 "BOOKS"]
              + calculateShippingCost
                  (calculateSubtotal [mkOrderItem "Novel" 0.14 5 "BOOKS"])))
    = Some 1066%Z /\
  calculateOrderTotal [mkOrderItem "Novel" 0.14 5 "BOOKS"]
    = Normal 10.67%float /\
  nearest_cents (Prim2SF 10.67) = Some 1067%Z /\
  Prim2SF 0.1 = S754_finite false 7205759403792794 (-56) /\
  SFint (Prim2SF (int_to_double 3)) = Some 3%Z /\
  Prim2SF (getTotalPrice (mkOrderItem "Tea" 0.1 3 "FOOD"))
    = S754_finite false 5404319552844596 (-54) /\
  (5404319552844596 * 2 ^ 2 <> 7205759403792794 * 3)%Z.
Proof.
  split.
  { split; [discriminate|]. repeat constructor; not_violating. }
  repeat split; try reflexivity. vm_compute. discriminate.
Qed.

(** C4, amended. Rounding to cents happens once, on the final value: the
    total of a valid order is [round (x * 100) / 100] in binary64
    arithmetic, where [x] is the sum of the subtotal and the shipping cost
    and [round] takes the binary64 product [x * 100] to the nearest
    integer, a tie going away from zero. Nothing is rounded to cents per
    line: the line total is the binary64 product of the price and the
    quantity (converted without error), the adjusted line total is the
    policy applied to it, and the subtotal is the left-to-right binary64
    sum of the adjusted line totals. Two taxed lines of three items at
    0.002 cost 10.01 with shipping (10.02 if each line were rounded to
    cents first), and the tie 10.125 goes up to 10.13. *)
Theorem rounding_happens_once (orderItems : list OrderItem) :
  validOrder orderItems ->
  Forall quantity_is_int orderItems ->
  let lineTotal := fun item : OrderItem =>
    (price item * int_to_double (quantity item))%float in
  let adjusted := fun item : OrderItem =>
    if iequals (category item) "ELECTRONICS" then
      (lineTotal item * (1 + 0.10))%float
    else if iequals (category item) "BOOKS" then
      if (5 <=? quantity item)%Z then (lineTotal item * (1 - 0.05))%float
      else lineTotal item
    else lineTotal item in
  let subtotal :=
    fold_left (fun sum item => (sum + adjusted item)%float)
              orderItems 0%float in
  let shipping := if (100 <=? subtotal)%float then 0%float else 10%float in
  let scaled := ((subtotal + shipping) * 100)%float in
  calculateOrderTotal orderItems = Normal (round scaled / 100)%float /\
  (forall s m e,
     Prim2SF scaled = S754_finite s m e ->
     ((0 <= e)%Z -> round scaled = scaled) /\
     ((e < 0)%Z ->
      exists n : Z,
        SFint (Prim2SF (round scaled)) = Some (cond_Zopp s n) /\
        ((2 * n - 1) * 2 ^ (- e) <= 2 * Zpos m
         < (2 * n + 1) * 2 ^ (- e))%Z)) /\
  Forall (fun item =>
            getTotalPrice item = lineTotal item /\
            SFint (Prim2SF (int_to_double (quantity item)))
              = Some (quantity item)) orderItems /\
  getTotalPrice (mkOrderItem "Washer" 0.004 3 "PARTS") = 0.012%float /\
  calculateOrderTotal
    [mkOrderItem "Washer" 0.004 1 "PARTS"; mkOrderItem "Nut" 0.004 1 "PARTS"]
    = Normal 10.01%float /\
  calculateOrderTotal
    [mkOrderItem "Fuse" 0.002 3 "ELECTRONICS";
     mkOrderItem "Diode" 0.002 3 "ELECTRONICS"]
    = Normal 10.01%float /\
  calculateOrderTotal [mkOrderItem "Bolt" 0.125 1 "PARTS"]
    = Normal 10.13%float /\
  calculateOrderTotal [mkOrderItem "Novel" 0.14 5 "BOOKS"]
    = Normal 10.67%float /\
  calculateOrderTotal [mkOrderItem "Cable" 0.15 1 "ELECTRONICS"]
    = Normal 10.16%float.
Proof.
  intros Hv Hq lineTotal adjusted subtotal shipping scaled.
  assert (Hs : calculateSubtotal orderItems = subtotal)
    by apply calculateSubtotal_eq.
  split; [|split; [|split]].
  - rewrite (calculateOrderTotal_valid _ Hv), Hs. reflexivity.
  - intros s m e. apply round_half_away_from_zero.
  - revert Hq. apply Forall_impl. intros item Hitem.
    split; [reflexivity | apply int_to_double_exact, Hitem].
  - repeat split.
Qed.

Lemma rounding_happens_once_witness :
  calculateOrderTotal
    [mkOrderItem "Fuse" 0.002 3 "ELECTRONICS";
     mkOrderItem "Diode" 0.002 3 "ELECTRONICS"]
  = Normal (round ((0 + 0.002 * 3 * (1 + 0.10) + 0.002 * 3 * (1 + 0.10) + 10)
                   * 100) / 100)%float.
Proof.
  assert (Hv : validOrder [mkOrderItem "Fuse" 0.002 3 "ELECTRONICS";
                           mkOrderItem "Diode" 0.002 3 "ELECTRONICS"]).
  { split; [discriminate|]. repeat constructor; not_violating. }
  assert (Hq : Forall quantity_is_int
                 [mkOrderItem "Fuse" 0.002 3 "ELECTRONICS";
                  mkOrderItem "Diode" 0.002 3 "ELECTRONICS"]).
  { repeat constructor; unfold quantity_is_int; cbn; lia. }
  exact (proj1 (rounding_happens_once _ Hv Hq)).
Defined.

Example electronics_order_total :
  calculateItemTotal (mkOrderItem "Phone" 100 1 "ELECTRONICS")
    = 110.00000000000001%float /\
  calculateOrderTotal [mkOrderItem "Phone" 100 1 "ELECTRONICS"]
    = Normal 110%float.
Proof. split; reflexivity. Qed.

(* ================================================================= *)
(** ** Trimming *)

Lemma ascii_eqb_space c : Ascii.eqb c " " = is_space c.
Proof. reflexivity. Qed.

Lemma find_first_not_of_None s :
  find_first_not_of " " s = None <-> string_forall is_space s = true.
Proof.
  induction s as [|c rest IH]; cbn.
  - split; reflexivity.
  - rewrite ascii_eqb_space. destruct (is_space c); cbn.
    + rewrite <- IH. destruct (find_first_not_of " " rest); cbn;
        split; congruence.
    + split; discriminate.
Qed.

Lemma find_last_not_of_None s :
  find_last_not_of " " s = None <-> string_forall is_space s = true.
Proof.
  induction s as [|c rest IH]; cbn.
  - split; reflexivity.
  - rewrite ascii_eqb_space.
    destruct (find_last_not_of " " rest) as [i|].
    + split; [discriminate|].
      intro H. apply andb_true_iff in H. destruct H as [_ H].
      apply IH in H. discriminate.
    + assert (Hr : string_forall is_space rest = true) by now apply IH.
      rewrite Hr, andb_true_r. destruct (is_space c); split; congruence.
Qed.

Lemma substring_0_length s : String.substring 0 (String.length s) s = s.
Proof. induction s as [|c rest IH]; cbn; [reflexivity | now rewrite IH]. Qed.

(** [rtrim] cuts the string after its last character that is not a space. *)
Lemma rtrim_substring s :
  rtrim s =
  match find_last_not_of " " s with
  | Some last => String.substring 0 (last + 1) s
  | None => EmptyString
  end.
Proof.
  induction s as [|c rest IH]; cbn [rtrim find_last_not_of]; [reflexivity|].
  rewrite IH, ascii_eqb_space.
  destruct (find_last_not_of " " rest) as [l|] eqn:El.
  - cbn [String.substring Nat.add].
    destruct (String.substring 0 (l + 1) rest) eqn:E; [|reflexivity].
    exfalso. destruct rest; [discriminate El|].
    rewrite Nat.add_1_r in E. discriminate E.
  - destruct (is_space c); cbn; [reflexivity|].
    destruct rest; reflexivity.
Qed.

(** [trim] removes the leading and the trailing spaces. *)
Lemma trim_ltrim_rtrim s : trim s = rtrim (ltrim s).
Proof.
  unfold trim, substr. induction s as [|c rest IH]; [reflexivity|].
  cbn [find_first_not_of find_last_not_of ltrim]. rewrite ascii_eqb_space.
  destruct (is_space c) eqn:Ec.
  - destruct (find_first_not_of " " rest) as [f|] eqn:Ef; cbn [option_map].
    + destruct (find_last_not_of " " rest) as [l|] eqn:El.
      * rewrite <- IH. reflexivity.
      * apply find_last_not_of_None in El.
        apply find_first_not_of_None in El. congruence.
    + rewrite <- IH. reflexivity.
  - rewrite rtrim_substring. cbn [find_last_not_of]. rewrite ascii_eqb_space, Ec.
    destruct (find_last_not_of " " rest) as [l|]; rewrite Nat.sub_0_r; reflexivity.
Qed.

Lemma ltrim_spaces s : exists n, s = (spaces n ++ ltrim s)%string.
Proof.
  induction s as [|c rest [n IH]]; [now exists 0%nat|]. cbn [ltrim].
  destruct (is_space c) eqn:Ec; [|now exists 0%nat].
  exists (S n). cbn. apply Ascii.eqb_eq in Ec. subst c. now rewrite <- IH.
Qed.

Lemma rtrim_spaces s : exists m, s = (rtrim s ++ spaces m)%string.
Proof.
  induction s as [|c rest [m IH]]; [now exists 0%nat|]. cbn [rtrim].
  destruct (rtrim rest) as [|c' rest'] eqn:Er.
  - destruct (is_space c) eqn:Ec.
    + exists (S m). cbn. apply Ascii.eqb_eq in Ec. subst c. now rewrite IH at 1.
    + exists m. cbn. now rewrite IH at 1.
  - exists m. cbn. now rewrite IH at 1.
Qed.

Lemma first_char_ltrim s : first_char (ltrim s) <> Some " "%char.
Proof.
  induction s as [|c rest IH]; cbn [ltrim]; [discriminate|].
  destruct (is_space c) eqn:Ec; [exact IH|]. cbn. intro H. injection H as ->.
  discriminate.
Qed.

Lemma last_char_rtrim s : last_char (rtrim s) <> Some " "%char.
Proof.
  induction s as [|c rest IH]; cbn [rtrim]; [discriminate|].
  destruct (rtrim rest) as [|c' rest'] eqn:Er.
  - destruct (is_space c) eqn:Ec; cbn; [discriminate|].
    intro H. injection H as ->. discriminate.
  - exact IH.
Qed.

Lemma first_char_rtrim s :
  first_char s <> Some " "%char -> first_char (rtrim s) <> Some " "%char.
Proof.
  destruct s as [|c rest]; [intros; discriminate|]. cbn [rtrim].
  intro H. destruct (rtrim rest); [|exact H].
  destruct (is_space c); [discriminate | exact H].
Qed.

Lemma ltrim_fixed s : first_char s <> Some " "%char -> ltrim s = s.
Proof.
  destruct s as [|c rest]; [reflexivity|]. cbn. intro H.
  destruct (is_space c) eqn:Ec; [|reflexivity].
  apply Ascii.eqb_eq in Ec. subst c. contradiction.
Qed.

Lemma rtrim_fixed s : last_char s <> Some " "%char -> rtrim s = s.
Proof.
  induction s as [|c rest IH]; [reflexivity|]. intro H. cbn [rtrim].
  destruct rest as [|c' rest'].
  - cbn. destruct (is_space c) eqn:Ec; [|reflexivity].
    apply Ascii.eqb_eq in Ec. subst c. contradiction.
  - rewrite IH by exact H. reflexivity.
Qed.

Lemma first_char_trim s : first_char (trim s) <> Some " "%char.
Proof. rewrite trim_ltrim_rtrim. apply first_char_rtrim, first_char_ltrim. Qed.

Lemma last_char_trim s : last_char (trim s) <> Some " "%char.
Proof. rewrite trim_ltrim_rtrim. apply last_char_rtrim. Qed.

Lemma trim_fixed s :
  first_char s <> Some " "%char -> last_char s <> Some " "%char ->
  trim s = s.
Proof.
  intros Hf Hl. rewrite trim_ltrim_rtrim, (ltrim_fixed s Hf). now apply rtrim_fixed.
Qed.

Lemma trim_idempotent s : trim (trim s) = trim s.
Proof. apply trim_fixed; [apply first_char_trim | apply last_char_trim]. Qed.

Lemma append_assoc (a b c : string) :
  ((a ++ b) ++ c = a ++ (b ++ c))%string.
Proof. induction a as [|x a IH]; cbn; [reflexivity | now rewrite IH]. Qed.

Lemma append_nil_r (a : string) : (a ++ "")%string = a.
Proof. induction a as [|x a IH]; cbn; [reflexivity | now rewrite IH]. Qed.

Lemma length_append (a b : string) :
  String.length (a ++ b) = (String.length a + String.length b)%nat.
Proof. induction a as [|x a IH]; cbn; [reflexivity | now rewrite IH]. Qed.

Lemma trim_spaces s :
  exists n m, s = (spaces n ++ trim s ++ spaces m)%string.
Proof.
  destruct (ltrim_spaces s) as [n Hn].
  destruct (rtrim_spaces (ltrim s)) as [m Hm].
  exists n, m. rewrite trim_ltrim_rtrim, <- Hm. exact Hn.
Qed.

Lemma length_trim s : (String.length (trim s) <= String.length s)%nat.
Proof.
  destruct (trim_spaces s) as (n & m & H). rewrite H at 2.
  rewrite !length_append. lia.
Qed.

Lemma string_forall_append p a b :
  string_forall p (a ++ b) = string_forall p a && string_forall p b.
Proof.
  induction a as [|x a IH]; cbn; [reflexivity|]. now rewrite IH, andb_assoc.
Qed.

Lemma string_forall_spaces n : string_forall is_space (spaces n) = true.
Proof. induction n; cbn; auto. Qed.

Lemma ltrim_only_spaces s :
  string_forall is_space s = true <-> ltrim s = EmptyString.
Proof.
  induction s as [|c rest IH]; cbn; [split; reflexivity|].
  destruct (is_space c); cbn; [exact IH | split; discriminate].
Qed.

Lemma trim_only_spaces s :
  string_forall is_space s = true <-> trim s = EmptyString.
Proof.
  split.
  - intro H. rewrite trim_ltrim_rtrim.
    apply ltrim_only_spaces in H. now rewrite H.
  - intro H. destruct (trim_spaces s) as (n & m & Hs). rewrite Hs, H.
    rewrite !string_forall_append, !string_forall_spaces. reflexivity.
Qed.

(* ================================================================= *)
(** ** Regular expressions *)

Lemma append_eq_nil (a b : string) :
  (a ++ b)%string = EmptyString -> a = EmptyString /\ b = EmptyString.
Proof. destruct a; cbn; [auto | discriminate]. Qed.

Lemma append_eq_cons (a b : string) c s :
  (a ++ b)%string = String c s ->
  (a = EmptyString /\ b = String c s) \/
  (exists a', a = String c a' /\ s = (a' ++ b)%string).
Proof.
  destruct a as [|x a']; cbn; intro H; [left; auto|].
  injection H as -> <-. right. now exists a'.
Qed.

Lemma Matches_Seq_inv r1 r2 s :
  Matches (Seq r1 r2) s ->
  exists s1 s2, s = (s1 ++ s2)%string /\ Matches r1 s1 /\ Matches r2 s2.
Proof. intro H. inversion H; subst. eauto. Qed.

Lemma Matches_Chr_inv c s : Matches (Chr c) s -> s = String c EmptyString.
Proof. intro H. now inversion H. Qed.

Lemma Matches_Bracket_inv items s :
  Matches (Bracket items) s ->
  exists c, s = String c EmptyString /\ in_bracket items c = true.
Proof. intro H. inversion H; subst. eauto. Qed.

Lemma nullable_Matches r : nullable r = true <-> Matches r EmptyString.
Proof.
  split.
  - induction r; cbn; intro H; try discriminate.
    + constructor.
    + apply andb_true_iff in H. destruct H as [H1 H2].
      change EmptyString with (EmptyString ++ EmptyString)%string.
      constructor; auto.
    + apply orb_true_iff in H. destruct H as [H | H];
        [apply M_Alt_l | apply M_Alt_r]; auto.
    + constructor.
  - intro H. remember EmptyString as s eqn:Es.
    induction H; cbn; try discriminate; try reflexivity.
    + apply append_eq_nil in Es. destruct Es as [-> ->].
      rewrite IHMatches1, IHMatches2; reflexivity.
    + rewrite IHMatches by assumption. reflexivity.
    + rewrite IHMatches by assumption. apply orb_true_r.
Qed.

Lemma Matches_Star_cons_inv r c s :
  Matches (Star r) (String c s) ->
  exists s1 s2, s = (s1 ++ s2)%string /\
                Matches r (String c s1) /\ Matches (Star r) s2.
Proof.
  intro H. remember (Star r) as r' eqn:Er. remember (String c s) as t eqn:Et.
  revert s Et. induction H; intros s0 Et; try discriminate.
  injection Er as ->.
  destruct (append_eq_cons _ _ _ _ Et) as [[-> ->] | (a' & -> & ->)].
  - apply IHMatches2; reflexivity.
  - exists a', s2. auto.
Qed.

Lemma deriv_Matches c r : forall s,
  Matches (deriv c r) s <-> Matches r (String c s).
Proof.
  induction r as [| |x|items|r1 IH1 r2 IH2|r1 IH1 r2 IH2|r IH];
    intro s; cbn [deriv].
  - split; intro H; inversion H.
  - split; intro H; inversion H.
  - destruct (Ascii.eqb_spec c x) as [->|Hne].
    + split; intro H; inversion H; subst; constructor.
    + split; intro H; inversion H; subst. contradiction.
  - destruct (in_bracket items c) eqn:Ei.
    + split; intro H; inversion H; subst; now constructor.
    + split; intro H; inversion H; subst. congruence.
  - assert (Hseq : Matches (Seq (deriv c r1) r2) s ->
                   Matches (Seq r1 r2) (String c s)).
    { intro H. destruct (Matches_Seq_inv _ _ _ H) as (s1 & s2 & -> & H1 & H2).
      apply IH1 in H1.
      change (String c (s1 ++ s2)) with (String c s1 ++ s2)%string.
      now constructor. }
    assert (Hinv : Matches (Seq r1 r2) (String c s) ->
                   Matches (Seq (deriv c r1) r2) s \/
                   (Matches r1 EmptyString /\ Matches (deriv c r2) s)).
    { intro H. destruct (Matches_Seq_inv _ _ _ H) as (s1 & s2 & E & H1 & H2).
      symmetry in E.
      destruct (append_eq_cons _ _ _ _ E) as [[-> ->] | (a' & -> & ->)].
      - right. split; [assumption | now apply IH2].
      - left. constructor; [now apply IH1 | assumption]. }
    destruct (nullable r1) eqn:En.
    + split.
      * intro H. inversion H; subst; [now apply Hseq|].
        change (String c s) with (EmptyString ++ String c s)%string.
        constructor; [now apply nullable_Matches | now apply IH2].
      * intro H. destruct (Hinv H) as [H' | [_ H']];
          [now apply M_Alt_l | now apply M_Alt_r].
    + split; [exact Hseq|].
      intro H. destruct (Hinv H) as [H' | [H' _]]; [exact H'|].
      apply nullable_Matches in H'. congruence.
  - split; intro H.
    + inversion H; subst; [apply M_Alt_l, IH1 | apply M_Alt_r, IH2]; assumption.
    + inversion H; subst; [apply M_Alt_l, IH1 | apply M_Alt_r, IH2]; assumption.
  - split; intro H.
    + destruct (Matches_Seq_inv _ _ _ H) as (s1 & s2 & -> & H1 & H2).
      apply IH in H1.
      change (String c (s1 ++ s2)) with (String c s1 ++ s2)%string.
      now constructor.
    + destruct (Matches_Star_cons_inv _ _ _ H) as (s1 & s2 & -> & H1 & H2).
      constructor; [now apply IH | assumption].
Qed.

(** [regex_match] decides membership in the language of the expression. *)
Lemma regex_match_Matches s : forall r,
  regex_match s r = true <-> Matches r s.
Proof.
  induction s as [|c rest IH]; intro r; cbn [regex_match].
  - apply nullable_Matches.
  - rewrite IH. apply deriv_Matches.
Qed.

Lemma Matches_Star_Bracket items s :
  Matches (Star (Bracket items)) s <->
  string_forall (in_bracket items) s = true.
Proof.
  split.
  - intro H. remember (Star (Bracket items)) as r eqn:Er.
    induction H; try discriminate; [reflexivity|].
    injection Er as ->.
    destruct (Matches_Bracket_inv _ _ H) as (c & -> & Hc). cbn.
    rewrite IHMatches2 by reflexivity. now rewrite Hc.
  - induction s as [|c rest IH]; cbn; intro H; [constructor|].
    apply andb_true_iff in H. destruct H as [Hc Hr].
    change (String c rest) with (String c EmptyString ++ rest)%string.
    constructor; [now constructor | now apply IH].
Qed.

Lemma Matches_Plus_Bracket items s :
  Matches (Plus (Bracket items)) s <->
  s <> EmptyString /\ string_forall (in_bracket items) s = true.
Proof.
  unfold Plus. split.
  - intro H. destruct (Matches_Seq_inv _ _ _ H) as (s1 & s2 & -> & H1 & H2).
    destruct (Matches_Bracket_inv _ _ H1) as (c & -> & Hc).
    apply Matches_Star_Bracket in H2. cbn.
    split; [discriminate | now rewrite Hc, H2].
  - intros [Hne H]. destruct s as [|c rest]; [contradiction|]. cbn in H.
    apply andb_true_iff in H. destruct H as [Hc Hr].
    change (String c rest) with (String c EmptyString ++ rest)%string.
    constructor; [now constructor | now apply Matches_Star_Bracket].
Qed.

Lemma Matches_AtLeast2_Bracket items s :
  Matches (AtLeast2 (Bracket items)) s <->
  (2 <= String.length s)%nat /\ string_forall (in_bracket items) s = true.
Proof.
  unfold AtLeast2. split.
  - intro H. destruct (Matches_Seq_inv _ _ _ H) as (s1 & s2 & -> & H1 & H2).
    destruct (Matches_Bracket_inv _ _ H1) as (c & -> & Hc).
    destruct (Matches_Seq_inv _ _ _ H2) as (s3 & s4 & -> & H3 & H4).
    destruct (Matches_Bracket_inv _ _ H3) as (c' & -> & Hc').
    apply Matches_Star_Bracket in H4. cbn.
    split; [lia | now rewrite Hc, Hc', H4].
  - intros [Hlen H]. destruct s as [|c [|c' rest]]; cbn in Hlen; try lia.
    cbn in H. apply andb_true_iff in H. destruct H as [Hc H].
    apply andb_true_iff in H. destruct H as [Hc' Hr].
    change (String c (String c' rest))
      with (String c EmptyString ++ (String c' EmptyString ++ rest))%string.
    constructor; [now constructor|].
    constructor; [now constructor | now apply Matches_Star_Bracket].
Qed.

(* ================================================================= *)
(** ** Email addresses *)

(** [EMAIL_PATTERN] matches exactly the strings of the shape
    [local@domain.tld]. *)
Lemma regex_match_EMAIL_PATTERN s :
  regex_match s UserValidationConstants.EMAIL_PATTERN = true <->
  email_shape s.
Proof.
  rewrite regex_match_Matches. unfold UserValidationConstants.EMAIL_PATTERN.
  split.
  - intro H.
    destruct (Matches_Seq_inv _ _ _ H) as (l & s1 & -> & Hl & H1).
    destruct (Matches_Seq_inv _ _ _ H1) as (at_ & s2 & -> & Hat & H2).
    destruct (Matches_Seq_inv _ _ _ H2) as (d & s3 & -> & Hd & H3).
    destruct (Matches_Seq_inv _ _ _ H3) as (dot & t & -> & Hdot & Ht).
    apply Matches_Chr_inv in Hat, Hdot. subst at_ dot.
    apply Matches_Plus_Bracket in Hl, Hd.
    apply Matches_AtLeast2_Bracket in Ht.
    exists l, d, t. tauto.
  - intros (l & d & t & -> & Hl & Hl' & Hd & Hd' & Ht & Ht').
    constructor; [now apply Matches_Plus_Bracket|].
    change ("@" ++ d ++ "." ++ t)%string
      with (String "@" EmptyString ++ (d ++ (String "." EmptyString ++ t)))%string.
    constructor; [constructor|].
    constructor; [now apply Matches_Plus_Bracket|].
    constructor; [constructor | now apply Matches_AtLeast2_Bracket].
Qed.

Lemma string_forall_impl (p q : ascii -> bool) s :
  (forall c, p c = true -> q c = true) ->
  string_forall p s = true -> string_forall q s = true.
Proof.
  intro Hpq. induction s as [|c rest IH]; cbn; [reflexivity|].
  intro H. apply andb_true_iff in H. destruct H as [Hc Hr].
  now rewrite (Hpq c Hc), IH.
Qed.

(** A property of characters that holds for the 256 of them holds for
    every character. *)
Lemma ascii_forall (P : ascii -> bool) :
  forallb P all_ascii = true -> forall c, P c = true.
Proof.
  intros H c. rewrite forallb_forall in H. apply H.
  unfold all_ascii. rewrite <- (ascii_nat_embedding c).
  apply in_map, in_seq. pose proof (nat_ascii_bounded c). lia.
Qed.

Lemma ascii_implies (p q : ascii -> bool) :
  forallb (fun c => implb (p c) (q c)) all_ascii = true ->
  forall c, p c = true -> q c = true.
Proof.
  intros H c Hp. pose proof (ascii_forall _ H c) as Hc. cbn in Hc.
  now rewrite Hp in Hc.
Qed.

Lemma local_char_visible c : local_char c = true -> negb (is_space c) = true.
Proof. revert c. apply ascii_implies. vm_compute. reflexivity. Qed.

Lemma domain_char_visible c : domain_char c = true -> negb (is_space c) = true.
Proof. revert c. apply ascii_implies. vm_compute. reflexivity. Qed.

Lemma letter_visible c : letter c = true -> negb (is_space c) = true.
Proof. revert c. apply ascii_implies. vm_compute. reflexivity. Qed.

Lemma local_char_tolower c : local_char c = true -> local_char (tolower c) = true.
Proof. revert c. apply ascii_implies. vm_compute. reflexivity. Qed.

Lemma domain_char_tolower c :
  domain_char c = true -> domain_char (tolower c) = true.
Proof. revert c. apply ascii_implies. vm_compute. reflexivity. Qed.

Lemma letter_tolower c : letter c = true -> letter (tolower c) = true.
Proof. revert c. apply ascii_implies. vm_compute. reflexivity. Qed.

Lemma tolower_idempotent c : tolower (tolower c) = tolower c.
Proof.
  apply Ascii.eqb_eq. revert c.
  apply (ascii_forall (fun c => Ascii.eqb (tolower (tolower c)) (tolower c))).
  vm_compute. reflexivity.
Qed.

Lemma tolower_not_upper c : is_upper (tolower c) = false.
Proof.
  apply negb_true_iff. revert c.
  apply (ascii_forall (fun c => negb (is_upper (tolower c)))).
  vm_compute. reflexivity.
Qed.

Lemma local_char_not_at c : local_char c = true -> negb (Ascii.eqb c "@") = true.
Proof. revert c. apply ascii_implies. vm_compute. reflexivity. Qed.

Lemma domain_char_not_at c :
  domain_char c = true -> negb (Ascii.eqb c "@") = true.
Proof. revert c. apply ascii_implies. vm_compute. reflexivity. Qed.

Lemma letter_not_at c : letter c = true -> negb (Ascii.eqb c "@") = true.
Proof. revert c. apply ascii_implies. vm_compute. reflexivity. Qed.

Lemma transform_tolower_append (a b : string) :
  transform_tolower (a ++ b) =
  (transform_tolower a ++ transform_tolower b)%string.
Proof. induction a as [|x a IH]; cbn; [reflexivity | now rewrite IH]. Qed.

Lemma length_transform_tolower s :
  String.length (transform_tolower s) = String.length s.
Proof. induction s as [|c rest IH]; cbn; [reflexivity | now rewrite IH]. Qed.

Lemma transform_tolower_idempotent s :
  transform_tolower (transform_tolower s) = transform_tolower s.
Proof.
  induction s as [|c rest IH]; cbn; [reflexivity|].
  now rewrite tolower_idempotent, IH.
Qed.

Lemma transform_tolower_no_upper s :
  string_forall (fun c => negb (is_upper c)) (transform_tolower s) = true.
Proof.
  induction s as [|c rest IH]; cbn; [reflexivity|].
  now rewrite tolower_not_upper, IH.
Qed.

Lemma string_forall_tolower (p : ascii -> bool) s :
  (forall c, p c = true -> p (tolower c) = true) ->
  string_forall p s = true -> string_forall p (transform_tolower s) = true.
Proof.
  intro Hp. induction s as [|c rest IH]; cbn; [reflexivity|].
  intro H. apply andb_true_iff in H. destruct H as [Hc Hr].
  now rewrite (Hp c Hc), IH.
Qed.

Lemma transform_tolower_nonempty s :
  s <> EmptyString -> transform_tolower s <> EmptyString.
Proof. destruct s; [contradiction | discriminate]. Qed.

(** Lower-casing keeps the shape of an email address. *)
Lemma email_shape_tolower s :
  email_shape s -> email_shape (transform_tolower s).
Proof.
  intros (l & d & t & -> & Hl & Hl' & Hd & Hd' & Ht & Ht').
  exists (transform_tolower l), (transform_tolower d), (transform_tolower t).
  rewrite !transform_tolower_append, length_transform_tolower.
  repeat split; try assumption;
    try (apply transform_tolower_nonempty; assumption).
  - now apply string_forall_tolower; [apply local_char_tolower|].
  - now apply string_forall_tolower; [apply domain_char_tolower|].
  - now apply string_forall_tolower; [apply letter_tolower|].
Qed.

(** An email address contains no character outside the three classes and
    the separators: in particular no space and only one [@]. *)
Lemma email_shape_visible s :
  email_shape s -> string_forall (fun c => negb (is_space c)) s = true.
Proof.
  intros (l & d & t & -> & _ & Hl & _ & Hd & _ & Ht).
  rewrite !string_forall_append.
  rewrite (string_forall_impl _ _ l local_char_visible Hl).
  rewrite (string_forall_impl _ _ d domain_char_visible Hd).
  rewrite (string_forall_impl _ _ t letter_visible Ht). reflexivity.
Qed.

Lemma visible_first_char s :
  string_forall (fun c => negb (is_space c)) s = true ->
  first_char s <> Some " "%char.
Proof.
  destruct s as [|c rest]; cbn; [discriminate|]. intros H E.
  injection E as ->. discriminate.
Qed.

Lemma visible_last_char s :
  string_forall (fun c => negb (is_space c)) s = true ->
  last_char s <> Some " "%char.
Proof.
  induction s as [|c rest IH]; [discriminate|]. cbn [string_forall].
  intro H. apply andb_true_iff in H. destruct H as [Hc Hr].
  destruct rest as [|c' rest']; [|exact (IH Hr)].
  cbn. intro E. injection E as ->. discriminate.
Qed.

Lemma email_shape_trim s : email_shape s -> trim s = s.
Proof.
  intro H. apply email_shape_visible in H.
  apply trim_fixed; [now apply visible_first_char | now apply visible_last_char].
Qed.

Lemma substring_append_1 (p q : string) c :
  String.substring (String.length p) 1 (p ++ String c q)
  = String c EmptyString.
Proof.
  induction p as [|x p IH]; cbn; [destruct q; reflexivity | exact IH].
Qed.

(** [find] finds an [@] that is there. *)
Lemma find_at_append (p q : string) :
  find "@" (p ++ String "@" q) <> None.
Proof.
  unfold find. intro H.
  apply (index_correct3 0 (String.length p)) in H;
    [|discriminate | lia].
  apply H. apply substring_append_1.
Qed.

(* ================================================================= *)
(** ** The validators of [User] *)

Lemma to_string_MINIMUM_NAME_LENGTH :
  to_string UserValidationConstants.MINIMUM_NAME_LENGTH = "2"%string.
Proof. reflexivity. Qed.

Lemma validateName_Returns s t :
  validateName s = Returns t <->
  t = trim s /\ (2 <= String.length t)%nat.
Proof.
  unfold validateName, UserValidationConstants.MINIMUM_NAME_LENGTH.
  destruct (find_first_not_of " " s) as [f|] eqn:Ef.
  - assert (He : empty s = false) by (destruct s; [discriminate | reflexivity]).
    rewrite He. cbn [orb]. cbv zeta.
    destruct (Z.ltb_spec (Z.of_nat (String.length (trim s))) 2).
    + split; [discriminate | intros [-> H']; lia].
    + split; [intro E; injection E as <-; split; [reflexivity | lia]
             | intros [-> _]; reflexivity].
  - rewrite orb_true_r. split; [discriminate|].
    intros [-> H]. apply find_first_not_of_None, trim_only_spaces in Ef.
    rewrite Ef in H. cbn in H. lia.
Qed.

Lemma validateName_Throws s ex :
  validateName s = Throws ex ->
  (string_forall is_space s = true /\
   ex = ValidationError "Name cannot be null or empty") \/
  (String.length (trim s) = 1%nat /\
   ex = ValidationError "Name must be at least 2 characters long").
Proof.
  unfold validateName, UserValidationConstants.MINIMUM_NAME_LENGTH.
  destruct (find_first_not_of " " s) as [f|] eqn:Ef.
  - assert (He : empty s = false) by (destruct s; [discriminate | reflexivity]).
    rewrite He. cbn [orb]. cbv zeta.
    destruct (Z.ltb_spec (Z.of_nat (String.length (trim s))) 2);
      [|discriminate].
    intro E. injection E as <-. right. split; [|reflexivity].
    assert (trim s <> EmptyString).
    { intro Ht. apply trim_only_spaces, find_first_not_of_None in Ht. congruence. }
    destruct (trim s); [contradiction | cbn in *; lia].
  - rewrite orb_true_r. intro E. injection E as <-. left.
    split; [now apply find_first_not_of_None | reflexivity].
Qed.

Lemma validateEmail_Returns s t :
  validateEmail s = Returns t <->
  t = transform_tolower (trim s) /\ email_shape (trim s).
Proof.
  unfold validateEmail. rewrite <- regex_match_EMAIL_PATTERN.
  destruct s as [|c rest].
  - cbn. split; [discriminate | intros [_ H]; discriminate].
  - cbn [empty]. cbv zeta.
    destruct (regex_match (trim (String c rest))
                UserValidationConstants.EMAIL_PATTERN); cbn [negb].
    + split; [intro E; injection E as <-; auto | intros [-> _]; reflexivity].
    + split; [discriminate | intros [_ H]; discriminate].
Qed.

Lemma validateAge_Returns a b :
  validateAge a = Returns b <-> b = a /\ (0 <= a <= 150)%Z.
Proof.
  unfold validateAge, UserValidationConstants.MINIMUM_AGE,
    UserValidationConstants.MAXIMUM_AGE.
  destruct (Z.ltb_spec a 0), (Z.ltb_spec 150 a); cbn [orb]; split;
    try discriminate; try (intros [_ ?]; lia).
  - intro E. injection E as <-. split; [reflexivity | lia].
  - intros [-> _]. reflexivity.
Qed.

(* ================================================================= *)
(** ** Properties of [trim] *)

(** X1. [trim] removes spaces at both ends and nothing else: the argument
    is the result between two runs of spaces, and the result neither begins
    nor ends with a space. *)
Theorem trim_removes_surrounding_spaces (s : string) :
  (exists n m, s = (spaces n ++ trim s ++ spaces m)%string) /\
  first_char (trim s) <> Some " "%char /\
  last_char (trim s) <> Some " "%char.
Proof.
  split; [apply trim_spaces|].
  split; [apply first_char_trim | apply last_char_trim].
Qed.

(** X2. [trim] leaves a string unchanged exactly when it neither begins nor
    ends with a space (a tab or a line break at an end stays), and trimming
    twice is trimming once. *)
Theorem trim_fixed_points (s : string) :
  (trim s = s <->
   first_char s <> Some " "%char /\ last_char s <> Some " "%char) /\
  trim (trim s) = trim s.
Proof.
  split; [split|apply trim_idempotent].
  - intro H. rewrite <- H. split; [apply first_char_trim | apply last_char_trim].
  - intros [Hf Hl]. now apply trim_fixed.
Qed.

(** X3. [trim] returns the empty string exactly for the strings that
    consist of spaces only, the empty string among them; the result is never
    longer than the argument. *)
Theorem trim_empty_iff (s : string) :
  (trim s = EmptyString <-> string_forall is_space s = true) /\
  (String.length (trim s) <= String.length s)%nat.
Proof.
  split; [symmetry; apply trim_only_spaces | apply length_trim].
Qed.

(* ================================================================= *)
(** ** Properties of the validators *)

(** X4. The three outcomes of [validateName]: a name of spaces only (or
    empty) is "null or empty"; a name whose trimmed form is a single
    character is too short; every other name is returned trimmed. *)
Theorem validateName_cases (nameValue : string) :
  (string_forall is_space nameValue = true /\
   validateName nameValue =
     Throws (ValidationError "Name cannot be null or empty")) \/
  (String.length (trim nameValue) = 1%nat /\
   validateName nameValue =
     Throws (ValidationError "Name must be at least 2 characters long")) \/
  ((2 <= String.length (trim nameValue))%nat /\
   validateName nameValue = Returns (trim nameValue)).
Proof.
  destruct (validateName nameValue) as [t|ex] eqn:E.
  - apply validateName_Returns in E. destruct E as [-> H]. right. right. auto.
  - destruct (validateName_Throws _ _ E) as [[H ->] | [H ->]]; [left | right; left];
      auto.
Qed.

(** X5. A name that [validateName] returns is in normal form: it is the
    argument without the spaces around it, it has at least two characters
    and no space at either end, and [validateName] returns it unchanged. *)
Theorem validateName_normal_form (nameValue validName : string) :
  validateName nameValue = Returns validName ->
  (exists n m, nameValue = (spaces n ++ validName ++ spaces m)%string) /\
  (2 <= String.length validName)%nat /\
  first_char validName <> Some " "%char /\
  last_char validName <> Some " "%char /\
  validateName validName = Returns validName.
Proof.
  intro H. apply validateName_Returns in H. destruct H as [-> Hlen].
  split; [apply trim_spaces|]. split; [exact Hlen|].
  split; [apply first_char_trim|]. split; [apply last_char_trim|].
  apply validateName_Returns. split; [symmetry; apply trim_idempotent | exact Hlen].
Qed.

Lemma validateName_normal_form_witness :
  validateName "  Alice Johnson " = Returns "Alice Johnson"%string /\
  validateName "Alice Johnson" = Returns "Alice Johnson"%string.
Proof.
  split; [reflexivity|].
  apply (validateName_normal_form "  Alice Johnson " "Alice Johnson").
  reflexivity.
Defined.

(** X6. The three outcomes of [validateEmail]: the empty string is "null or
    empty"; a string whose trimmed form is not of the shape
    [local@domain.tld] is not "in valid format" (a string of spaces is
    reported this way, not as empty); every other string is returned
    trimmed and in lower case. *)
Theorem validateEmail_cases (emailValue : string) :
  (emailValue = EmptyString /\
   validateEmail emailValue =
     Throws (ValidationError "Email cannot be null or empty")) \/
  (emailValue <> EmptyString /\ ~ email_shape (trim emailValue) /\
   validateEmail emailValue =
     Throws (ValidationError "Email must be in valid format")) \/
  (email_shape (trim emailValue) /\
   validateEmail emailValue = Returns (transform_tolower (trim emailValue))).
Proof.
  destruct (validateEmail emailValue) as [t|ex] eqn:E.
  - apply validateEmail_Returns in E. destruct E as [-> H]. right. right. auto.
  - unfold validateEmail in E. destruct emailValue as [|c rest].
    + left. cbn in E. injection E as <-. split; reflexivity.
    + right. left. cbn [empty] in E. cbv zeta in E.
      destruct (regex_match (trim (String c rest))
                  UserValidationConstants.EMAIL_PATTERN) eqn:Em;
        cbn [negb] in E; [discriminate|].
      injection E as <-.
      split; [discriminate|]. split; [|reflexivity].
      intro Hs. apply regex_match_EMAIL_PATTERN in Hs. congruence.
Qed.

(** X7. An email address that [validateEmail] returns is in normal form: it
    has the shape [local@domain.tld], no upper-case letter and no space, it
    is not longer than the argument, and [validateEmail] returns it
    unchanged. *)
Theorem validateEmail_normal_form (emailValue validEmail : string) :
  validateEmail emailValue = Returns validEmail ->
  email_shape validEmail /\
  string_forall (fun c => negb (is_upper c)) validEmail = true /\
  string_forall (fun c => negb (is_space c)) validEmail = true /\
  (String.length validEmail <= String.length emailValue)%nat /\
  validateEmail validEmail = Returns validEmail.
Proof.
  intro H. apply validateEmail_Returns in H. destruct H as [-> Hs].
  pose proof (email_shape_tolower _ Hs) as Hs'.
  split; [exact Hs'|].
  split; [apply transform_tolower_no_upper|].
  split; [now apply email_shape_visible|].
  split; [rewrite length_transform_tolower; apply length_trim|].
  apply validateEmail_Returns. rewrite (email_shape_trim _ Hs').
  split; [symmetry; apply transform_tolower_idempotent | exact Hs'].
Qed.

Lemma validateEmail_normal_form_witness :
  validateEmail " Bob.Smith@Example.COM " = Returns "bob.smith@example.com"%string /\
  validateEmail "bob.smith@example.com" = Returns "bob.smith@example.com"%string.
Proof.
  split; [reflexivity|].
  apply (validateEmail_normal_form " Bob.Smith@Example.COM "
                                   "bob.smith@example.com").
  reflexivity.
Defined.

(* ================================================================= *)
(** ** Properties of [User] *)

Lemma User_new_Returns (n e : string) (a : Z) (user : User) :
  User_new n e a = Returns user <->
  user = mkUser (trim n) (transform_tolower (trim e)) a false /\
  (2 <= String.length (trim n))%nat /\
  email_shape (trim e) /\
  (0 <= a <= 150)%Z.
Proof.
  unfold User_new, and_then. split.
  - destruct (validateName n) as [n'|] eqn:En; [|discriminate].
    destruct (validateEmail e) as [e'|] eqn:Ee; [|discriminate].
    destruct (validateAge a) as [a'|] eqn:Ea; [|discriminate].
    apply validateName_Returns in En. apply validateEmail_Returns in Ee.
    apply validateAge_Returns in Ea.
    destruct En as [-> Hn], Ee as [-> He], Ea as [-> Ha].
    intro E. injection E as <-. auto.
  - intros (-> & Hn & He & Ha).
    rewrite (proj2 (validateName_Returns n (trim n))) by auto.
    rewrite (proj2 (validateEmail_Returns e _)) by auto.
    rewrite (proj2 (validateAge_Returns a a)) by auto.
    reflexivity.
Qed.

Lemma User_valid_fields (n e : string) (a : Z) (user : User) :
  User_new n e a = Returns user ->
  validateName (name user) = Returns (name user) /\
  validateEmail (email user) = Returns (email user) /\
  validateAge (age user) = Returns (age user).
Proof.
  intro H. apply User_new_Returns in H. destruct H as (-> & Hn & Hm & Ha).
  cbn [name email age].
  pose proof (email_shape_tolower _ Hm) as Hm'.
  repeat split.
  - apply validateName_Returns. rewrite trim_idempotent. auto.
  - apply validateEmail_Returns. rewrite (email_shape_trim _ Hm').
    split; [symmetry; apply transform_tolower_idempotent | exact Hm'].
  - now apply validateAge_Returns.
Qed.

Lemma isValid_of_valid_fields (user : User) :
  validateName (name user) = Returns (name user) ->
  validateEmail (email user) = Returns (email user) ->
  validateAge (age user) = Returns (age user) ->
  isValid user = Returns true.
Proof.
  intros Hn He Ha. unfold isValid. rewrite Hn, He, Ha. reflexivity.
Qed.

Lemma validators_throw_ValidationError :
  (forall s ex, validateName s = Throws ex -> exists m, ex = ValidationError m) /\
  (forall s ex, validateEmail s = Throws ex -> exists m, ex = ValidationError m) /\
  (forall a ex, validateAge a = Throws ex -> exists m, ex = ValidationError m).
Proof.
  repeat split.
  - intros s ex. unfold validateName.
    destruct (_ || _); [intro E; injection E as <-; eauto|]. cbv zeta.
    destruct (_ <? _)%Z; [intro E; injection E as <-; eauto | discriminate].
  - intros s ex. unfold validateEmail.
    destruct (empty s); [intro E; injection E as <-; eauto|]. cbv zeta.
    destruct (negb _); [intro E; injection E as <-; eauto | discriminate].
  - intros a ex. unfold validateAge.
    destruct (_ || _); [intro E; injection E as <-; eauto | discriminate].
Qed.

(** X8. The constructor succeeds exactly when the trimmed name has at least
    two characters, the trimmed email address has the shape
    [local@domain.tld] and the age is between 0 and 150, and then the user
    holds the trimmed name, the trimmed lower-case email address, the age,
    and is not verified. *)
Theorem User_new_succeeds_iff (n e : string) (a : Z) (user : User) :
  User_new n e a = Returns user <->
  user = mkUser (trim n) (transform_tolower (trim e)) a false /\
  (2 <= String.length (trim n))%nat /\
  email_shape (trim e) /\
  (0 <= a <= 150)%Z.
Proof. apply User_new_Returns. Qed.

(** X9. The constructor reports the first failing member in the order name,
    email, age, whatever the later arguments are, and it throws nothing but
    a [ValidationError]. *)
Theorem User_new_first_error (n e : string) (a : Z) :
  (forall ex, validateName n = Throws ex -> User_new n e a = Throws ex) /\
  (forall n' ex, validateName n = Returns n' -> validateEmail e = Throws ex ->
     User_new n e a = Throws ex) /\
  (forall n' e' ex, validateName n = Returns n' ->
     validateEmail e = Returns e' -> validateAge a = Throws ex ->
     User_new n e a = Throws ex) /\
  (forall ex, User_new n e a = Throws ex -> exists m, ex = ValidationError m) /\
  User_new "X" "invalid-email" (-5) =
    Throws (ValidationError "Name must be at least 2 characters long") /\
  User_new "Xy" "invalid-email" (-5) =
    Throws (ValidationError "Email must be in valid format") /\
  User_new "Xy" "x@y.zz" (-5) =
    Throws (ValidationError "Age must be between 0 and 150").
Proof.
  destruct validators_throw_ValidationError as (Hvn & Hve & Hva).
  unfold User_new, and_then.
  split; [intros ex ->; reflexivity|].
  split; [intros n' ex -> ->; reflexivity|].
  split; [intros n' e' ex -> -> ->; reflexivity|].
  split; [|repeat split].
  intros ex.
  destruct (validateName n) eqn:En;
    [|intro E; injection E as <-; eapply Hvn; eassumption].
  destruct (validateEmail e) eqn:Ee;
    [|intro E; injection E as <-; eapply Hve; eassumption].
  destruct (validateAge a) eqn:Ea;
    [discriminate|intro E; injection E as <-; eapply Hva; eassumption].
Qed.

(** X10. Every user the constructor returns is valid, and stays valid when
    its verification flag is set: [isValid] returns [true], so the branch of
    [getUserDescription] for an invalid user is never taken. *)
Theorem constructed_user_is_valid (n e : string) (a : Z) (user : User) :
  User_new n e a = Returns user ->
  isValid user = Returns true /\
  (forall verified, isValid (setIsVerified user verified) = Returns true) /\
  (forall verified,
     getUserDescription (setIsVerified user verified)
     <> Returns "Invalid User"%string).
Proof.
  intro H. destruct (User_valid_fields _ _ _ _ H) as (Hn & He & Ha).
  assert (Hset : forall verified,
             isValid (setIsVerified user verified) = Returns true).
  { intro verified. apply isValid_of_valid_fields; assumption. }
  split; [now apply isValid_of_valid_fields|].
  split; [exact Hset|].
  intro verified. unfold getUserDescription. rewrite Hset. cbn [and_then negb].
  unfold getUserTypeString.
  destruct (getUserType (setIsVerified user verified)); discriminate.
Qed.

Lemma constructed_user_is_valid_witness :
  isValid (mkUser "Alice Johnson" "alice@example.com" 25 false) = Returns true.
Proof.
  apply (constructed_user_is_valid " Alice Johnson" "Alice@Example.com " 25
           (mkUser "Alice Johnson" "alice@example.com" 25 false)).
  reflexivity.
Defined.

(** X11. The description of a constructed user is
    "<type> User: <trimmed name> (Unverified)", where the type is Minor for
    the ages 0 to 17, Adult for 18 to 64 and Senior for 65 to 150; after
    verification it ends in "(Verified)". *)
Theorem constructed_user_description (n e : string) (a : Z) (user : User) :
  User_new n e a = Returns user ->
  getUserDescription user =
    Returns ((if (a <? 18)%Z then "Minor"
              else if (a <? 65)%Z then "Adult" else "Senior")
             ++ " User: " ++ trim n ++ " (Unverified)")%string /\
  getUserDescription (setIsVerified user true) =
    Returns ((if (a <? 18)%Z then "Minor"
              else if (a <? 65)%Z then "Adult" else "Senior")
             ++ " User: " ++ trim n ++ " (Verified)")%string /\
  (getUserType user = Minor <-> (0 <= a <= 17)%Z) /\
  (getUserType user = Adult <-> (18 <= a <= 64)%Z) /\
  (getUserType user = Senior <-> (65 <= a <= 150)%Z).
Proof.
  intro H. destruct (User_valid_fields _ _ _ _ H) as (Hn & He & Ha).
  assert (Hv : forall verified,
             isValid (setIsVerified user verified) = Returns true).
  { intro verified. apply isValid_of_valid_fields; assumption. }
  assert (Hu : isValid user = Returns true)
    by now apply isValid_of_valid_fields.
  apply User_new_Returns in H. destruct H as (-> & _ & _ & Hage).
  unfold getUserDescription. rewrite Hu, Hv. cbn [and_then negb].
  unfold getUserTypeString, getUserType, setIsVerified,
    UserValidationConstants.ADULT_AGE_THRESHOLD.
  cbn [name email age isVerified].
  destruct (Z.leb_spec 65 a), (Z.leb_spec 18 a), (Z.ltb_spec a 18),
    (Z.ltb_spec a 65); try lia;
    (split; [reflexivity|]; split; [reflexivity|]);
    repeat split; intros; try discriminate; try lia; try reflexivity.
Qed.

Lemma constructed_user_description_witness :
  getUserDescription (mkUser "Bob Smith" "bob@example.com" 16 false) =
    Returns "Minor User: Bob Smith (Unverified)"%string.
Proof.
  apply (constructed_user_description "Bob Smith" "bob@example.com" 16
           (mkUser "Bob Smith" "bob@example.com" 16 false)).
  reflexivity.
Defined.

(* ================================================================= *)
(** ** The bad example against the good one *)

Lemma email_shape_find_at (s : string) :
  email_shape (trim s) -> find "@" s <> None.
Proof.
  intros (l & d & t & Hs & _).
  destruct (trim_spaces s) as (i & j & E). rewrite Hs in E. rewrite E.
  change ("@" ++ d ++ "." ++ t)%string with (String "@" (d ++ "." ++ t))%string.
  rewrite !append_assoc. rewrite <- append_assoc.
  change (String "@" (d ++ "." ++ t) ++ spaces j)%string
    with (String "@" ((d ++ "." ++ t) ++ spaces j))%string.
  apply find_at_append.
Qed.

(** X12. What the constructor of [User] accepts, [u::chk] accepts too; the
    converse fails: [chk] accepts the name "ab" with the email "@", and a
    name of two spaces. *)
Theorem chk_accepts_what_User_accepts (n e : string) (a : Z) (user : User) :
  User_new n e a = Returns user ->
  u.chk (u.new n e a) = true /\
  u.chk (u.new "ab" "@" 5) = true /\
  User_new "ab" "@" 5 =
    Throws (ValidationError "Email must be in valid format") /\
  u.chk (u.new "  " "a@b.cc" 5) = true /\
  User_new "  " "a@b.cc" 5 =
    Throws (ValidationError "Name cannot be null or empty").
Proof.
  intro H. apply User_new_Returns in H. destruct H as (_ & Hn & He & Ha).
  split; [|repeat split].
  unfold u.chk, u.new. cbn [u.n u.e u.a].
  pose proof (length_trim n) as Hlen.
  destruct (Nat.ltb_spec (String.length n) 2); [lia|].
  pose proof (email_shape_find_at e He) as Hat.
  destruct (find "@" e); [|contradiction].
  destruct (Z.ltb_spec a 0), (Z.ltb_spec 150 a); try lia. reflexivity.
Qed.

Lemma chk_accepts_what_User_accepts_witness :
  u.chk (u.new "Alice Johnson" "alice@example.com" 25) = true.
Proof.
  apply (chk_accepts_what_User_accepts "Alice Johnson" "alice@example.com" 25
           (mkUser "Alice Johnson" "alice@example.com" 25 false)).
  reflexivity.
Defined.

(* ================================================================= *)
(** ** Properties of [UserService::registerUser] *)

Lemma createUser_Returns (n e : string) (a : Z) (user : User) :
  User_new n e a = Returns user ->
  UserService.createUser n e a = Returns user.
Proof. intro H. unfold UserService.createUser. now rewrite H. Qed.

Lemma User_new_throws_ValidationError (n e : string) (a : Z) ex :
  User_new n e a = Throws ex -> exists m, ex = ValidationError m.
Proof.
  destruct validators_throw_ValidationError as (Hvn & Hve & Hva).
  unfold User_new, and_then.
  destruct (validateName n) eqn:En;
    [|intro E; injection E as <-; eapply Hvn; eassumption].
  destruct (validateEmail e) eqn:Ee;
    [|intro E; injection E as <-; eapply Hve; eassumption].
  destruct (validateAge a) eqn:Ea;
    [discriminate|intro E; injection E as <-; eapply Hva; eassumption].
Qed.

Lemma createUser_Throws (n e : string) (a : Z) ex :
  User_new n e a = Throws ex ->
  UserService.createUser n e a =
  Throws (ValidationError ("Invalid user data: " ++ exception_what ex)).
Proof.
  intro H. unfold UserService.createUser. rewrite H.
  destruct (User_new_throws_ValidationError _ _ _ _ H) as [m ->]. reflexivity.
Qed.

(** X13. When the repository already has a user for the email address,
    [registerUser] throws "User with email <email> already exists" right
    after the lookup: the data is not validated, nothing is saved, no mail
    is sent and nothing is printed. *)
Theorem registerUser_existing_user {W : Type} (self : UserService.t W)
  (n e : string) (a : Z) (s : UserService.state W) (existing : User) (w1 : W) :
  UserRepository.getUserByEmail (UserService.userRepository self) e
    (UserService.collaborators s) = (Returns (Some existing), w1) ->
  UserService.registerUser self n e a s =
    (Throws (std_runtime_error ("User with email " ++ e ++ " already exists")),
     UserService.mkState w1 (UserService.cout s)).
Proof.
  intro H. unfold UserService.registerUser,
    UserService.validateUserDoesNotExist. rewrite H. reflexivity.
Qed.

Lemma registerUser_existing_user_witness :
  UserService.registerUser
    (UserService.mk _
       (recordingRepository
          (Some (mkUser "Alice" "alice@example.com" 25 false)))
       recordingEmailService)
    "" "alice@example.com" 200 (UserService.mkState [] []) =
  (Throws (std_runtime_error
             "User with email alice@example.com already exists"),
   UserService.mkState [called_getUserByEmail "alice@example.com"] []).
Proof.
  apply (registerUser_existing_user
           (UserService.mk _
              (recordingRepository
                 (Some (mkUser "Alice" "alice@example.com" 25 false)))
              recordingEmailService)
           "" "alice@example.com" 200 (UserService.mkState [] [])
           (mkUser "Alice" "alice@example.com" 25 false)
           [called_getUserByEmail "alice@example.com"]).
  reflexivity.
Defined.

(** X14. When the repository has no user for the email address and the
    data is invalid, [registerUser] throws a [ValidationError] whose message
    is "Invalid user data: " followed by the message of the constructor;
    nothing is saved and no mail is sent. *)
Theorem registerUser_invalid_data {W : Type} (self : UserService.t W)
  (n e : string) (a : Z) (s : UserService.state W) (w1 : W) ex :
  UserRepository.getUserByEmail (UserService.userRepository self) e
    (UserService.collaborators s) = (Returns None, w1) ->
  User_new n e a = Throws ex ->
  UserService.registerUser self n e a s =
    (Throws (ValidationError ("Invalid user data: " ++ exception_what ex)),
     UserService.mkState w1 (UserService.cout s)).
Proof.
  intros H Hu. unfold UserService.registerUser,
    UserService.validateUserDoesNotExist. rewrite H.
  rewrite (createUser_Throws _ _ _ _ Hu). reflexivity.
Qed.

Lemma registerUser_invalid_data_witness :
  UserService.registerUser
    (UserService.mk _ (recordingRepository None) recordingEmailService)
    "X" "x@example.com" 30 (UserService.mkState [] []) =
  (Throws (ValidationError
             "Invalid user data: Name must be at least 2 characters long"),
   UserService.mkState [called_getUserByEmail "x@example.com"] []).
Proof.
  apply (registerUser_invalid_data
           (UserService.mk _ (recordingRepository None) recordingEmailService)
           "X" "x@example.com" 30 (UserService.mkState [] [])
           [called_getUserByEmail "x@example.com"]
           (ValidationError "Name must be at least 2 characters long"));
    reflexivity.
Defined.

(** X15. When saving throws, [registerUser] throws a [std::runtime_error]
    whose message is "Failed to save user to database: " followed by the
    message of the repository, and no welcome mail is sent. *)
Theorem registerUser_save_fails {W : Type} (self : UserService.t W)
  (n e : string) (a : Z) (s : UserService.state W) (w1 w2 : W)
  (user : User) ex :
  UserRepository.getUserByEmail (UserService.userRepository self) e
    (UserService.collaborators s) = (Returns None, w1) ->
  User_new n e a = Returns user ->
  UserRepository.saveUser (UserService.userRepository self) user w1
    = (Throws ex, w2) ->
  UserService.registerUser self n e a s =
    (Throws (std_runtime_error
               ("Failed to save user to database: " ++ exception_what ex)),
     UserService.mkState w2 (UserService.cout s)).
Proof.
  intros H Hu Hs. unfold UserService.registerUser,
    UserService.validateUserDoesNotExist, UserService.saveUser.
  rewrite H, (createUser_Returns _ _ _ _ Hu).
  cbn [UserService.collaborators UserService.cout]. rewrite Hs. reflexivity.
Qed.

Lemma registerUser_save_fails_witness :
  UserService.registerUser
    (UserService.mk _
       (UserRepository.mk (list call)
          (fun _ log => (Throws (std_exception "disk full"), log))
          (fun _ log => (Returns None, log)))
       recordingEmailService)
    "Alice" "alice@example.com" 25 (UserService.mkState [] []) =
  (Throws (std_runtime_error "Failed to save user to database: disk full"),
   UserService.mkState [] []).
Proof.
  apply (registerUser_save_fails
           (UserService.mk _
              (UserRepository.mk (list call)
                 (fun _ log => (Throws (std_exception "disk full"), log))
                 (fun _ log => (Returns None, log)))
              recordingEmailService)
           "Alice" "alice@example.com" 25 (UserService.mkState [] []) [] []
           (mkUser "Alice" "alice@example.com" 25 false)
           (std_exception "disk full"));
    reflexivity.
Defined.

(** X16. Once the user is saved, [registerUser] returns it whether or not
    the welcome mail can be sent: a failure of the mail service is not
    thrown, it is printed as one warning line with the email address of the
    user and the message of the failure. *)
Theorem registerUser_mail_failure_is_tolerated {W : Type}
  (self : UserService.t W) (n e : string) (a : Z) (s : UserService.state W)
  (w1 w2 w3 : W) (user : User) (sent : outcome unit) :
  UserRepository.getUserByEmail (UserService.userRepository self) e
    (UserService.collaborators s) = (Returns None, w1) ->
  User_new n e a = Returns user ->
  UserRepository.saveUser (UserService.userRepository self) user w1
    = (Returns tt, w2) ->
  EmailService.sendWelcomeEmail (UserService.emailService self)
    (email user) (name user) w2 = (sent, w3) ->
  UserService.registerUser self n e a s =
    (Returns user,
     UserService.mkState w3
       (UserService.cout s ++
        match sent with
        | Returns _ => []
        | Throws ex =>
            ["Warning: Failed to send welcome email to " ++ email user
             ++ ": " ++ exception_what ex]%string
        end)).
Proof.
  intros H Hu Hs Hm. unfold UserService.registerUser,
    UserService.validateUserDoesNotExist, UserService.saveUser,
    UserService.sendWelcomeEmail, getEmail, getName.
  rewrite H, (createUser_Returns _ _ _ _ Hu).
  cbn [UserService.collaborators UserService.cout]. rewrite Hs.
  cbn [UserService.collaborators UserService.cout]. rewrite Hm.
  destruct sent as [[]|ex]; [rewrite app_nil_r|]; reflexivity.
Qed.

Lemma registerUser_mail_failure_is_tolerated_witness :
  UserService.registerUser
    (UserService.mk _ (recordingRepository None)
       (EmailService.mk (list call)
          (fun _ _ log => (Throws (std_exception "no route"), log))))
    " Alice " "Alice@Example.com" 25 (UserService.mkState [] []) =
  (Returns (mkUser "Alice" "alice@example.com" 25 false),
   UserService.mkState
     [called_getUserByEmail "Alice@Example.com";
      called_saveUser (mkUser "Alice" "alice@example.com" 25 false)]
     ["Warning: Failed to send welcome email to alice@example.com: no route"%string]).
Proof.
  apply (registerUser_mail_failure_is_tolerated
           (UserService.mk _ (recordingRepository None)
              (EmailService.mk (list call)
                 (fun _ _ log => (Throws (std_exception "no route"), log))))
           " Alice " "Alice@Example.com" 25 (UserService.mkState [] [])
           [called_getUserByEmail "Alice@Example.com"]
           [called_getUserByEmail "Alice@Example.com";
            called_saveUser (mkUser "Alice" "alice@example.com" 25 false)]
           [called_getUserByEmail "Alice@Example.com";
            called_saveUser (mkUser "Alice" "alice@example.com" 25 false)]
           (mkUser "Alice" "alice@example.com" 25 false)
           (Throws (std_exception "no route")));
    reflexivity.
Defined.

(** X17. The calls [registerUser] makes, seen by collaborators that record
    them: always one lookup first, with the email address as it was given;
    if a user is found or the data is invalid, nothing else; otherwise the
    user is saved and then the mail is sent to the trimmed lower-case
    address with the trimmed name. *)
Theorem registerUser_calls (found : option User) (n e : string) (a : Z) :
  UserService.collaborators
    (snd (UserService.registerUser
            (UserService.mk _ (recordingRepository found)
                            recordingEmailService)
            n e a (UserService.mkState [] []))) =
  match found, User_new n e a with
  | None, Returns user =>
      [called_getUserByEmail e;
       called_saveUser
         (mkUser (trim n) (transform_tolower (trim e)) a false);
       called_sendWelcomeEmail (transform_tolower (trim e)) (trim n)]
  | _, _ => [called_getUserByEmail e]
  end.
Proof.
  unfold UserService.registerUser, UserService.validateUserDoesNotExist.
  cbn [UserService.userRepository UserRepository.getUserByEmail
       recordingRepository UserService.collaborators app].
  destruct found as [existing|]; [reflexivity|].
  destruct (User_new n e a) as [user|ex] eqn:Hu.
  - rewrite (createUser_Returns _ _ _ _ Hu).
    apply User_new_Returns in Hu. destruct Hu as (-> & _). reflexivity.
  - rewrite (createUser_Throws _ _ _ _ Hu). reflexivity.
Qed.

(* ================================================================= *)
(** ** The total in cents *)

(** A finite value of [SFround] is an integer. *)
Lemma SFround_integer (x : spec_float) s m e :
  SFround x = S754_finite s m e ->
  exists z : Z, SFint (SFround x) = Some z.
Proof.
  destruct x as [s0|s0| |s0 m0 e0]; try discriminate.
  destruct (Z.ltb_spec e0 0) as [Hneg | Hpos].
  - intros _. destruct (SFround_half_away s0 m0 e0 Hneg) as (n & Hn & _).
    eexists. exact Hn.
  - intro H. rewrite H. cbn [SFround] in H.
    destruct (Z.leb_spec 0 e0); [|lia]. injection H as -> -> ->.
    cbn [SFint]. destruct (Z.leb_spec 0 e); [|lia]. eexists. reflexivity.
Qed.

(** An integer of the format that is not below 1000 as a binary64 number is
    not below 1000 as an integer. *)
Lemma SFint_ge_1000 (m : positive) (e z : Z) :
  valid_binary (S754_finite false m e) = true ->
  SFleb (S754_finite false 8796093022208000 (-43)) (S754_finite false m e)
    = true ->
  SFint (S754_finite false m e) = Some z ->
  (1000 <= z)%Z.
Proof.
  intros Hv Hle Hz.
  destruct (valid_finite_facts _ _ _ Hv) as (He & Hm & Hnorm).
  destruct (SFleb_finite_inv _ _ _ Hle) as [Hinf | (m' & e' & E & Hcmp)];
    [discriminate|]. injection E as <- <-.
  change (2 ^ 52)%Z with 4503599627370496%Z in Hnorm.
  unfold SFint, cond_Zopp in Hz.
  destruct (Z.leb_spec 0 e) as [Hpos | Hneg].
  - assert (Hz' : z = (Zpos m * 2 ^ e)%Z) by congruence. subst z.
    specialize (Hnorm ltac:(lia)).
    assert (1 <= 2 ^ e)%Z by (apply (Z.pow_le_mono_r 2 0 e); lia).
    assert (Zpos m * 1 <= Zpos m * 2 ^ e)%Z
      by (apply Z.mul_le_mono_nonneg_l; lia).
    lia.
  - destruct (Zpos m mod 2 ^ (- e) =? 0)%Z; [|discriminate].
    assert (Hz' : z = (Zpos m / 2 ^ (- e))%Z) by congruence. subst z.
    assert (H2 : (0 < 2 ^ (- e))%Z) by (apply Z.pow_pos_nonneg; lia).
    apply Z.div_le_lower_bound; [exact H2|].
    destruct Hcmp as [Hlt | [Heq Hmm]].
    + specialize (Hnorm ltac:(lia)).
      assert (2 ^ (- e) <= 2 ^ 42)%Z by (apply Z.pow_le_mono_r; lia).
      change (2 ^ 42)%Z with 4398046511104%Z in *. lia.
    + subst e. change (2 ^ (- -43))%Z with 8796093022208%Z. lia.
Qed.

Lemma round_cents_ge_1000 (amount : float) :
  (10 <=? amount)%float = true ->
  SFleb (S754_finite false 8796093022208000 (-43))
        (Prim2SF (round (amount * 100))) = true.
Proof.
  intro H10. rewrite FloatAxioms.leb_spec, Prim2SF_10 in H10.
  rewrite Prim2SF_round.
  apply (SFround_ge 1000); try reflexivity; try lia;
    [apply Prim2SF_valid|].
  pose proof (Prim2SF_valid (amount * 100)) as Hvalid.
  rewrite mul_spec, Prim2SF_100 in *.
  apply (SFmul_ge 5629499534213120 (-49)); try reflexivity;
    try assumption; try lia.
  apply Prim2SF_valid.
Qed.

(** X18. The total of a valid order is a whole number of cents divided by
    100: it is [cents / 100] for a binary64 value [cents] that is an integer
    of at least 1000, or +infinity when the amount is too large for a
    [double]. *)
Theorem valid_order_total_is_whole_cents (orderItems : list OrderItem) :
  orderItems <> [] ->
  Forall meets_preconditions orderItems ->
  Forall quantity_is_int orderItems ->
  exists cents : float,
    calculateOrderTotal orderItems = Normal (cents / 100)%float /\
    (Prim2SF cents = S754_infinity false \/
     exists z : Z, SFint (Prim2SF cents) = Some z /\ (1000 <= z)%Z).
Proof.
  intros Hne Hpre Hint.
  assert (Hvalid : validOrder orderItems).
  { split; [exact Hne|]. eapply Forall_impl; [|exact Hpre].
    intros item. apply meets_preconditions_not_violates. }
  rewrite (calculateOrderTotal_valid _ Hvalid).
  eexists. split; [reflexivity|].
  pose proof (calculateSubtotal_nonneg orderItems Hpre Hint) as Hs.
  pose proof (round_cents_ge_1000 _ (with_shipping_ge_10 _ Hs)) as Hge.
  set (cents := round _) in *.
  pose proof (Prim2SF_valid cents) as Hv.
  destruct (SFleb_finite_inv _ _ _ Hge) as [Hinf | (m & e & E & _)];
    [now left | right].
  assert (Hr : exists z, SFint (Prim2SF cents) = Some z).
  { unfold cents in *. rewrite Prim2SF_round in *.
    eapply SFround_integer. exact E. }
  destruct Hr as [z Hz]. exists z. split; [exact Hz|].
  rewrite E in *. eapply SFint_ge_1000; eassumption.
Qed.

Lemma valid_order_total_is_whole_cents_witness :
  exists cents : float,
    calculateOrderTotal [mkOrderItem "Eraser" 0.014 1 "OFFICE"]
      = Normal (cents / 100)%float /\
    (Prim2SF cents = S754_infinity false \/
     exists z : Z, SFint (Prim2SF cents) = Some z /\ (1000 <= z)%Z).
Proof.
  apply (valid_order_total_is_whole_cents
           [mkOrderItem "Eraser" 0.014 1 "OFFICE"]).
  - discriminate.
  - constructor; [|constructor].
    unfold meets_preconditions; cbn. repeat split; try lia; discriminate.
  - constructor; [|constructor]. unfold quantity_is_int; cbn. lia.
Defined.
